(** * Power_Analyzer_using_python: [power_analyzer.py]

    A shallow embedding of the single-phase AC power analyzer.

    The two functions of the script, [calculate_power] and
    [plot_waveforms], are written once, line by line after the Python
    text, over an interface [PyNum] that names the arithmetic the script
    uses: the operators [*], [-], [/], [**], the comparisons, the [math]
    and [numpy] calls and the builtin [round].  Exceptions are explicit:
    a computation returns [Ok v] or [Raise e].

    Two instances of the interface are given.

    - [Exact.real_num]: exact arithmetic on the real numbers, with no
      rounding, overflow or underflow.  The general statements about
      values are proved for this instance; it is the reading under which
      the formulas of the specification are meant.  A statement proved
      here says what the formulas give, not that a binary64 run comes
      through: on floats a product can overflow or underflow where the
      real one does not.
    - [Binary64.float_num]: IEEE 754 binary64 as CPython uses it, with the
      exception checks CPython adds around the C operations.  The C
      library functions that have no correctly rounded definition
      ([acos], [tan], [sin], [cos]) and the decimal rounding of
      [round] are parameters of that instance.  It is used to run the
      function on concrete inputs, where overflow and underflow make it
      part from the exact reading.

    The default arguments [freq=50] and [cycles=3] are passed
    explicitly.

    The main program, the statements that follow the two functions, is
    [main]: it maps the lines typed on standard input to what the script
    writes and shows, with [float] on strings as a parameter. *)

From Stdlib Require Uint63.
From Stdlib Require Import PrimFloat String.
From Stdlib Require Import Reals Lra Lia ZArith Bool List.
Import ListNotations.

Set Warnings "-inexact-float".

(** ** Exceptions *)

(** The exceptions the two functions can raise. *)
Inductive exn : Type :=
| ValueError
| ZeroDivisionError
| OverflowError.

Inductive result (A : Type) : Type :=
| Ok (a : A)
| Raise (e : exn).

Arguments Ok {A} a.
Arguments Raise {A} e.

Definition bind {A B : Type} (m : result A) (k : A -> result B) : result B :=
  match m with
  | Ok a => k a
  | Raise e => Raise e
  end.

Declare Scope py_scope.
Delimit Scope py_scope with py.
Notation "x <- m ;; k" := (bind m (fun x => k))
  (at level 61, m at next level, right associativity) : py_scope.

Definition returns {A : Type} (m : result A) : Prop := exists a, m = Ok a.

Definition raises {A : Type} (m : result A) : Prop := exists e, m = Raise e.

(** ** The arithmetic the script uses *)

Class PyNum (F : Type) : Type := {
  (** literals of the script *)
  lit_0 : F;
  lit_1 : F;
  lit_2 : F;
  lit_0_95 : F;
  lit_0_7 : F;
  lit_1_3 : F;
  lit_1e6 : F;
  lit_1000 : F;
  math_pi : F;                       (* math.pi, np.pi *)
  of_nat : nat -> F;                 (* the integers of np.linspace *)
  (** operators *)
  add : F -> F -> F;
  sub : F -> F -> F;
  mul : F -> F -> F;
  neg : F -> F;
  truediv : F -> F -> result F;      (* x / y *)
  pow2 : F -> result F;              (* x ** 2 *)
  ltb : F -> F -> bool;
  leb : F -> F -> bool;
  (** module math *)
  math_sqrt : F -> result F;
  math_acos : F -> result F;
  math_tan : F -> result F;
  math_cos : F -> result F;
  math_sin : F -> result F;
  math_degrees : F -> F;
  (** numpy, on floats *)
  np_sqrt : F -> F;
  np_sin : F -> F;
  (** builtin round(x, ndigits) *)
  round_nd : nat -> F -> F
}.

(** ** The result of [calculate_power] *)

(** The dictionary the function returns, one field per key:
    ['S'], ['P'], ['Q'], ['theta_deg'], ['pf'], ['required_C']. *)
Record PowerResult (F : Type) : Type := mkPowerResult {
  res_S : F;
  res_P : F;
  res_Q : F;
  res_theta_deg : F;
  res_pf : F;
  res_required_C : F
}.

Arguments mkPowerResult {F}.
Arguments res_S {F}.
Arguments res_P {F}.
Arguments res_Q {F}.
Arguments res_theta_deg {F}.
Arguments res_pf {F}.
Arguments res_required_C {F}.

(** The local variables of [calculate_power] that the [return] statement
    reads, as they stand when it is reached. *)
Record PowerLocals (F : Type) : Type := mkPowerLocals {
  loc_S : F;
  loc_P : F;
  loc_Q : F;
  loc_theta_deg : F;
  loc_c_microfarad : F
}.

Arguments mkPowerLocals {F}.
Arguments loc_S {F}.
Arguments loc_P {F}.
Arguments loc_Q {F}.
Arguments loc_theta_deg {F}.
Arguments loc_c_microfarad {F}.

(** What [plot_waveforms] hands to the drawing calls: the three sampled
    series of the first subplot and the arrows of the phasor diagram. *)
Record Figure (F : Type) : Type := mkFigure {
  fig_t_ms : list F;
  fig_v : list F;
  fig_i : list F;
  fig_v_len : F;
  fig_scale_factor : F;
  fig_scale_label : F;
  fig_curr_x : F;
  fig_curr_y : F;
  fig_limit : F
}.

Arguments mkFigure {F}.
Arguments fig_t_ms {F}.
Arguments fig_v {F}.
Arguments fig_i {F}.
Arguments fig_v_len {F}.
Arguments fig_scale_factor {F}.
Arguments fig_scale_label {F}.
Arguments fig_curr_x {F}.
Arguments fig_curr_y {F}.
Arguments fig_limit {F}.

Section Program.

Context {F : Type} {num : PyNum F}.

Local Open Scope py_scope.

Local Notation "x * y" := (mul x y) : py_scope.
Local Notation "x - y" := (sub x y) : py_scope.
Local Notation "x + y" := (add x y) : py_scope.
Local Notation "x <? y" := (ltb x y) : py_scope.
Local Notation "x <=? y" := (leb x y) : py_scope.

(** [calculate_power], lines 7 to 24: everything before the [return].
    The operands are evaluated left to right, as Python does. *)
Definition calculate_power_locals (V_rms I_rms pf freq : F)
  : result (PowerLocals F) :=
  if (pf <=? lit_0) || (lit_1 <? pf) then Raise ValueError
  else
    let S := V_rms * I_rms in
    let P := S * pf in
    pf_sq <- pow2 pf ;;
    root <- math_sqrt (lit_1 - pf_sq) ;;
    let Q := S * root in
    theta <- math_acos pf ;;
    let theta_deg := math_degrees theta in
    let target_pf := lit_0_95 in
    if (pf <? target_pf) && (lit_0 <? P) then
      let phi1 := theta in
      phi2 <- math_acos target_pf ;;
      tan1 <- math_tan phi1 ;;
      tan2 <- math_tan phi2 ;;
      V_sq <- pow2 V_rms ;;
      C <- truediv (P * (tan1 - tan2)) (lit_2 * math_pi * freq * V_sq) ;;
      Ok (mkPowerLocals S P Q theta_deg (C * lit_1e6))
    else
      Ok (mkPowerLocals S P Q theta_deg lit_0).

(** [calculate_power], lines 26 to 33: the dictionary built from the
    locals.  ['Q'] is the literal [0] unless [pf < 1]. *)
Definition power_result (pf : F) (l : PowerLocals F) : PowerResult F :=
  mkPowerResult
    (round_nd 2 (loc_S l))
    (round_nd 2 (loc_P l))
    (if pf <? lit_1 then round_nd 2 (loc_Q l) else lit_0)
    (round_nd 2 (loc_theta_deg l))
    pf
    (round_nd 2 (loc_c_microfarad l)).

Definition calculate_power (V_rms I_rms pf freq : F)
  : result (PowerResult F) :=
  l <- calculate_power_locals V_rms I_rms pf freq ;;
  Ok (power_result pf l).

(** [np.linspace(0, stop, num)] for [num > 1]: [num] samples, the [k]-th
    at [k * (stop / (num - 1))], the last one set to [stop]. *)
Definition linspace0 (stop : F) (num : nat) : result (list F) :=
  step <- truediv stop (of_nat (num - 1)) ;;
  Ok (map (fun k => of_nat k * step + lit_0) (seq 0 (num - 1)) ++ [stop]).

(** [plot_waveforms]: the values computed for the two subplots, in the
    order of the script.  The drawing calls themselves are effects on the
    figure and return nothing the function uses; they are not modelled.
    [Ok fig] therefore says that the computations of the function came
    through and what was handed to matplotlib, not that matplotlib drew
    it: the library can still refuse values that are infinite or too
    large for its axes. *)
Definition plot_waveforms (V_rms I_rms pf freq cycles : F)
  : result (Figure F) :=
  duration <- truediv cycles freq ;;
  t <- linspace0 duration 1000 ;;
  let omega := lit_2 * math_pi * freq in
  theta <- math_acos pf ;;
  let v := map (fun tk => V_rms * np_sqrt lit_2 * np_sin (omega * tk)) t in
  let i := map (fun tk => I_rms * np_sqrt lit_2 * np_sin (omega * tk - theta)) t in
  let t_ms := map (fun tk => tk * lit_1000) t in
  let v_len := V_rms in
  ratio <- truediv v_len I_rms ;;
  let scale_factor := ratio * lit_0_7 in
  cos_theta <- math_cos theta ;;
  let curr_x := (I_rms * cos_theta) * scale_factor in
  sin_theta <- math_sin (neg theta) ;;
  let curr_y := (I_rms * sin_theta) * scale_factor in
  let limit := v_len * lit_1_3 in
  Ok (mkFigure t_ms v i v_len scale_factor (round_nd 1 scale_factor)
        curr_x curr_y limit).

End Program.

(** ** The main program *)

(** What ends the [try] block of the script: an exception of the two
    functions or of [float], or the end of standard input under
    [input]. *)
Inductive raised : Type :=
| Raised (e : exn)
| EOFError.

(** The four prompts of lines 93 to 96. *)
Inductive prompt : Type :=
| AskVoltage
| AskCurrent
| AskPowerFactor
| AskFrequency.

(** What the script writes and shows, one constructor per group of
    statements; the text of a number or of an exception is Python's and
    is not spelled out. *)
Inductive Output (F : Type) : Type :=
| Banner                              (* lines 87 to 89 *)
| Prompt (p : prompt)                 (* the prompt written by input() *)
| ResultsBlock (r : PowerResult F)    (* lines 100 to 105 *)
| Suggestion (c : F)                  (* lines 108 to 110 *)
| Optimal                             (* line 112 *)
| ResultsEnd                          (* line 113 *)
| ShowPlot (fig : Figure F)           (* plot_waveforms came through *)
| InvalidInput                        (* line 119 *)
| Unexpected (e : raised).            (* line 121 *)

Arguments Banner {F}.
Arguments Prompt {F} p.
Arguments ResultsBlock {F} r.
Arguments Suggestion {F} c.
Arguments Optimal {F}.
Arguments ResultsEnd {F}.
Arguments ShowPlot {F} fig.
Arguments InvalidInput {F}.
Arguments Unexpected {F} e.

(** The console: the lines still to be read and what was written. *)
Record Console (F : Type) : Type := mkConsole {
  stdin : list string;
  stdout : list (Output F)
}.

Arguments mkConsole {F}.
Arguments stdin {F}.
Arguments stdout {F}.

(** A statement of the [try] block: it acts on the console and either
    yields a value or raises. *)
Definition script (F A : Type) : Type :=
  Console F -> Console F * (A + raised).

Definition sret {F A : Type} (a : A) : script F A :=
  fun c => (c, inl a).

Definition sbind {F A B : Type} (m : script F A) (k : A -> script F B)
  : script F B :=
  fun c =>
    match m c with
    | (c', inl a) => k a c'
    | (c', inr e) => (c', inr e)
    end.

Declare Scope script_scope.
Delimit Scope script_scope with script.
Notation "x <-- m ;; k" := (sbind m (fun x => k))
  (at level 61, m at next level, right associativity) : script_scope.
Notation "m ;;; k" := (sbind m (fun _ => k))
  (at level 61, right associativity) : script_scope.

(** [print]. *)
Definition print {F : Type} (o : Output F) : script F unit :=
  fun c => (mkConsole (stdin c) (stdout c ++ [o]), inl tt).

(** [input(prompt)]: the prompt is written, then a line is read;
    [EOFError] when there is none. *)
Definition input {F : Type} (p : prompt) : script F string :=
  fun c =>
    let c' := mkConsole (stdin c) (stdout c ++ [Prompt p]) in
    match stdin c with
    | [] => (c', inr EOFError)
    | line :: rest => (mkConsole rest (stdout c'), inl line)
    end.

(** A call of one of the two functions. *)
Definition call {F A : Type} (r : result A) : script F A :=
  fun c =>
    match r with
    | Ok a => (c, inl a)
    | Raise e => (c, inr (Raised e))
    end.

Section Script.

Context {F : Type} {num : PyNum F}.

(** [float(s)] on a string: the number, or nothing when Python raises
    [ValueError]. *)
Variable float_of_str : string -> option F.

Local Open Scope script_scope.

Definition to_float (s : string) : script F F :=
  match float_of_str s with
  | Some x => sret x
  | None => call (Raise ValueError)
  end.

(** [float(input(...) or 50)]: an empty line stands for 50. *)
Definition to_float_or_50 (s : string) : script F F :=
  match s with
  | EmptyString => sret (of_nat 50)
  | _ => to_float s
  end.

(** Lines 93 to 116, the body of the [try]. *)
Definition main_try : script F unit :=
  line_V <-- input AskVoltage ;;
  V <-- to_float line_V ;;
  line_I <-- input AskCurrent ;;
  I <-- to_float line_I ;;
  line_pf <-- input AskPowerFactor ;;
  pf <-- to_float line_pf ;;
  line_f <-- input AskFrequency ;;
  f <-- to_float_or_50 line_f ;;
  results <-- call (calculate_power V I pf f) ;;
  print (ResultsBlock results) ;;;
  (if ltb lit_0 (res_required_C results)
   then print (Suggestion (res_required_C results))
   else print Optimal) ;;;
  print ResultsEnd ;;;
  fig <-- call (plot_waveforms V I pf f (of_nat 3)) ;;
  print (ShowPlot fig).

(** The script, lines 87 to 121: the banner, the [try] block and its two
    handlers.  The result is everything written, in order. *)
Definition main (lines : list string) : list (Output F) :=
  match main_try (mkConsole lines [Banner]) with
  | (c, inl _) => stdout c
  | (c, inr (Raised ValueError)) => stdout c ++ [InvalidInput]
  | (c, inr e) => stdout c ++ [Unexpected e]
  end.

(** The banner and the first [n] of the four prompts, in the order they
    are written. *)
Definition asked (n : nat) : list (Output F) :=
  Banner :: firstn n [Prompt AskVoltage; Prompt AskCurrent;
                      Prompt AskPowerFactor; Prompt AskFrequency].

(** The frequency line [line] is read as [f]: 50 for an empty line, what
    [float] makes of it otherwise. *)
Definition frequency_read (line : string) (f : F) : Prop :=
  match line with
  | EmptyString => f = of_nat 50
  | _ => float_of_str line = Some f
  end.

(** What the script writes once its four inputs are read, from the call
    of [calculate_power] on. *)
Definition report (V I pf f : F) : list (Output F) :=
  match calculate_power V I pf f with
  | Raise ValueError => [InvalidInput]
  | Raise e => [Unexpected (Raised e)]
  | Ok results =>
      [ResultsBlock results;
       if ltb lit_0 (res_required_C results)
       then Suggestion (res_required_C results) else Optimal;
       ResultsEnd]
      ++ match plot_waveforms V I pf f (of_nat 3) with
         | Ok fig => [ShowPlot fig]
         | Raise ValueError => [InvalidInput]
         | Raise e => [Unexpected (Raised e)]
         end
  end.

End Script.

(** ** Exact arithmetic *)

Module Exact.

Local Open Scope R_scope.

Definition Rltb (x y : R) : bool := if Rlt_dec x y then true else false.

Definition Rleb (x y : R) : bool := if Rle_dec x y then true else false.

(** [x / y]: Python raises [ZeroDivisionError] on a zero divisor. *)
Definition real_truediv (x y : R) : result R :=
  if Req_dec_T y 0 then Raise ZeroDivisionError else Ok (x / y).

(** [math.sqrt] raises [ValueError] (math domain error) below zero. *)
Definition real_sqrt (x : R) : result R :=
  if Rlt_dec x 0 then Raise ValueError else Ok (sqrt x).

(** [math.acos] raises [ValueError] outside [-1, 1]. *)
Definition real_acos (x : R) : result R :=
  if Rle_dec (-1) x then
    if Rle_dec x 1 then Ok (acos x) else Raise ValueError
  else Raise ValueError.

(** The integer nearest to [x], a tie going to the even neighbour. *)
Definition round_half_even (x : R) : Z :=
  let f := Int_part x in
  let d := x - IZR f in
  if Rlt_dec d (1 / 2) then f
  else if Rlt_dec (1 / 2) d then (f + 1)%Z
  else if Z.even f then f else (f + 1)%Z.

(** [round(x, n)]: the multiple of [10 ^ -n] nearest to [x], ties to the
    even digit. *)
Definition real_round (n : nat) (x : R) : R :=
  IZR (round_half_even (x * 10 ^ n)) / 10 ^ n.

#[export] Instance real_num : PyNum R := {
  lit_0 := 0;
  lit_1 := 1;
  lit_2 := 2;
  lit_0_95 := 95 / 100;
  lit_0_7 := 7 / 10;
  lit_1_3 := 13 / 10;
  lit_1e6 := 1000000;
  lit_1000 := 1000;
  math_pi := PI;
  of_nat := INR;
  add := Rplus;
  sub := Rminus;
  mul := Rmult;
  neg := Ropp;
  truediv := real_truediv;
  pow2 := fun x => Ok (x * x);
  ltb := Rltb;
  leb := Rleb;
  math_sqrt := real_sqrt;
  math_acos := real_acos;
  math_tan := fun x => Ok (tan x);   (* raises for no real argument *)
  math_cos := fun x => Ok (cos x);
  math_sin := fun x => Ok (sin x);
  math_degrees := fun x => x * (180 / PI);
  np_sqrt := sqrt;
  np_sin := sin;
  round_nd := real_round
}.

(** The values a run on the reals leaves in the locals, once the guard of
    line 7 is passed: [c] is the capacitance in microfarads.  That the
    function computes them is [calculate_power_locals_in_range] below. *)
Definition locals_of (V_rms I_rms pf c : R) : PowerLocals R :=
  mkPowerLocals (V_rms * I_rms) (V_rms * I_rms * pf)
    (V_rms * I_rms * sqrt (1 - pf * pf)) (acos pf * (180 / PI)) c.

(** The operands of the division on line 23. *)
Definition numerator (V_rms I_rms pf : R) : R :=
  V_rms * I_rms * pf * (tan (acos pf) - tan (acos (95 / 100))).

Definition denominator (V_rms freq : R) : R :=
  2 * PI * freq * (V_rms * V_rms).

(** The condition of line 19. *)
Definition needs_correction (V_rms I_rms pf : R) : bool :=
  Rltb pf (95 / 100) && Rltb 0 (V_rms * I_rms * pf).

(** The locals of the run [calculate_power(230, 5, 0.8, 50)]. *)
Definition scenario_locals : PowerLocals R :=
  locals_of 230 5 (8 / 10)
    (numerator 230 5 (8 / 10) / denominator 230 50 * 1000000).

(** A value with at most two decimals. *)
Definition two_decimals (x : R) : Prop := exists k : Z, x = IZR k / 100.

(** [y] is [x] rounded to two decimals: the multiple of 0.01 nearest to
    [x], the one with an even last digit when [x] is halfway between
    two. *)
Definition rounds_to_2 (x y : R) : Prop :=
  exists k : Z,
    y = IZR k / 100 /\
    - (5 / 1000) <= y - x <= 5 / 1000 /\
    (y - x = 5 / 1000 \/ y - x = - (5 / 1000) -> Z.even k = true).

(** The formulas of the specification, in its words (section 4.1). *)
Definition spec_S (voltageRms currentRms : R) : R := voltageRms * currentRms.

Definition spec_P (voltageRms currentRms powerFactor : R) : R :=
  spec_S voltageRms currentRms * powerFactor.

Definition spec_Q (voltageRms currentRms powerFactor : R) : R :=
  spec_S voltageRms currentRms * sqrt (1 - powerFactor ^ 2).

Definition spec_thetaDeg (powerFactor : R) : R :=
  acos powerFactor * 180 / PI.

Definition spec_capacitance_uF
  (voltageRms currentRms powerFactor frequencyHz : R) : R :=
  1000000 * spec_P voltageRms currentRms powerFactor
  * (tan (acos powerFactor) - tan (acos (95 / 100)))
  / (2 * PI * frequencyHz * voltageRms ^ 2).

(** The sample times of [plot_waveforms], in seconds. *)
Definition time_base (duration : R) : list R :=
  map (fun k => INR k * (duration / INR (1000 - 1)) + 0) (seq 0 (1000 - 1))
  ++ [duration].

(** The figure a run of [plot_waveforms] on the reals draws when none of
    its three fallible steps raises.  That the function computes it is
    [plot_waveforms_figure] below. *)
Definition figure_of (V_rms I_rms pf freq cycles : R) : Figure R :=
  let t := time_base (cycles / freq) in
  let scale_factor := V_rms / I_rms * (7 / 10) in
  mkFigure
    (map (fun tk => tk * 1000) t)
    (map (fun tk => V_rms * sqrt 2 * sin (2 * PI * freq * tk)) t)
    (map (fun tk => I_rms * sqrt 2 * sin (2 * PI * freq * tk - acos pf)) t)
    V_rms
    scale_factor
    (real_round 1 scale_factor)
    (I_rms * cos (acos pf) * scale_factor)
    (I_rms * sin (- acos pf) * scale_factor)
    (V_rms * (13 / 10)).

(** A [float] for the examples: it reads a handful of numerals and
    rejects every other line. *)
Definition sample_float (s : string) : option R :=
  if String.eqb s "230" then Some 230
  else if String.eqb s "5" then Some 5
  else if String.eqb s "0" then Some 0
  else if String.eqb s "0.8" then Some (8 / 10)
  else if String.eqb s "1" then Some 1
  else if String.eqb s "1.5" then Some (15 / 10)
  else if String.eqb s "50" then Some 50
  else None.

End Exact.

(** ** Binary64 arithmetic as CPython runs it *)

Module Binary64.

Local Open Scope float_scope.

(** What the model takes from the C library and the interpreter: the
    [libm] functions and the decimal rounding behind [round(x, n)]
    ([double_round] in [floatobject.c]). *)
Record CRuntime : Type := mkCRuntime {
  c_acos : float -> float;
  c_tan : float -> float;
  c_cos : float -> float;
  c_sin : float -> float;
  double_round : nat -> float -> float
}.

(** [math_1] of [mathmodule.c]: a result that is NaN for an argument that
    is not, or infinite for a finite argument, becomes an exception. *)
Definition math_1 (f : float -> float) (can_overflow : bool) (x : float)
  : result float :=
  let r := f x in
  if PrimFloat.is_nan r && negb (PrimFloat.is_nan x) then Raise ValueError
  else if PrimFloat.is_infinity r && PrimFloat.is_finite x then
    Raise (if can_overflow then OverflowError else ValueError)
  else Ok r.

(** [float_div] of [floatobject.c]: a divisor equal to zero raises. *)
Definition float_truediv (x y : float) : result float :=
  if y =? 0 then Raise ZeroDivisionError else Ok (x / y).

(** [float_pow] with exponent 2: the square, rounded; a finite base whose
    square is out of range raises [OverflowError], a square that
    underflows is returned as it is. *)
Definition float_pow2 (x : float) : result float :=
  let r := x * x in
  if PrimFloat.is_infinity r && PrimFloat.is_finite x then
    Raise OverflowError
  else Ok r.

Definition float_of_nat (k : nat) : float :=
  PrimFloat.of_uint63 (Uint63.of_Z (Z.of_nat k)).

Definition float_num (rt : CRuntime) : PyNum float := {|
  lit_0 := 0;
  lit_1 := 1;
  lit_2 := 2;
  lit_0_95 := 0.95;
  lit_0_7 := 0.7;
  lit_1_3 := 1.3;
  lit_1e6 := 1e6;
  lit_1000 := 1000;
  math_pi := 3.141592653589793;
  of_nat := float_of_nat;
  add := PrimFloat.add;
  sub := PrimFloat.sub;
  mul := PrimFloat.mul;
  neg := PrimFloat.opp;
  truediv := float_truediv;
  pow2 := float_pow2;
  ltb := PrimFloat.ltb;
  leb := PrimFloat.leb;
  math_sqrt := math_1 PrimFloat.sqrt false;
  math_acos := math_1 (c_acos rt) false;
  math_tan := math_1 (c_tan rt) false;
  math_cos := math_1 (c_cos rt) false;
  math_sin := math_1 (c_sin rt) false;
  math_degrees := fun x => x * (180 / 3.141592653589793);
  np_sqrt := PrimFloat.sqrt;
  np_sin := c_sin rt;
  round_nd := double_round rt
|}.

(** The C function [f] gives a finite value at [x]. *)
Definition finite_at (f : float -> float) (x : float) : Prop :=
  PrimFloat.is_finite (f x) = true.

(** The four [libm] calls of the correction branch come back finite. *)
Definition libm_finite_for (rt : CRuntime) (pf : float) : Prop :=
  finite_at (c_acos rt) pf /\
  finite_at (c_acos rt) 0.95 /\
  finite_at (c_tan rt) (c_acos rt pf) /\
  finite_at (c_tan rt) (c_acos rt 0.95).

(** A C library whose four functions return 0.5 whatever the argument,
    and whose decimal rounding returns its argument: enough to run the
    paths whose outcome does not depend on the values [libm] returns. *)
Definition constant_runtime : CRuntime := {|
  c_acos := fun _ => 0.5;
  c_tan := fun _ => 0.5;
  c_cos := fun _ => 0.5;
  c_sin := fun _ => 0.5;
  double_round := fun _ x => x
|}.

End Binary64.

(** * Properties *)

Import Exact.

Local Open Scope R_scope.

(** ** Comparisons and rounding on the reals *)

Lemma Rltb_true (x y : R) : Rltb x y = true <-> x < y.
Proof.
  unfold Rltb. destruct (Rlt_dec x y); split; intros; try easy.
Qed.

Lemma Rltb_false (x y : R) : Rltb x y = false <-> y <= x.
Proof.
  unfold Rltb. destruct (Rlt_dec x y); split; intros; try easy; lra.
Qed.

Lemma Rleb_true (x y : R) : Rleb x y = true <-> x <= y.
Proof.
  unfold Rleb. destruct (Rle_dec x y); split; intros; try easy.
Qed.

Lemma Rleb_false (x y : R) : Rleb x y = false <-> y < x.
Proof.
  unfold Rleb. destruct (Rle_dec x y); split; intros; try easy; lra.
Qed.

Lemma Int_part_bounds (x : R) : IZR (Int_part x) <= x < IZR (Int_part x) + 1.
Proof.
  destruct (base_Int_part x). lra.
Qed.

(** An integer within one half of [x] on both sides, strictly, is the
    rounding of [x]. *)
Lemma round_half_even_near (x : R) (k : Z) :
  IZR k - 1 / 2 < x < IZR k + 1 / 2 -> round_half_even x = k.
Proof.
  intros [Hlo Hhi]. unfold round_half_even.
  pose proof (Int_part_bounds x) as [Hf1 Hf2].
  set (f := Int_part x) in *.
  assert (Hle : (f <= k)%Z).
  { apply Z.lt_succ_r, lt_IZR. rewrite succ_IZR. lra. }
  assert (Hge : (k - 1 <= f)%Z).
  { apply Z.lt_succ_r, lt_IZR. rewrite succ_IZR, minus_IZR. lra. }
  assert (Hcases : f = k \/ f = (k - 1)%Z) by lia.
  destruct Hcases as [-> | ->].
  - destruct (Rlt_dec (x - IZR k) (1 / 2)); [reflexivity | lra].
  - rewrite minus_IZR in *.
    destruct (Rlt_dec (x - (IZR k - 1)) (1 / 2)); [lra |].
    destruct (Rlt_dec (1 / 2) (x - (IZR k - 1))); [lia | lra].
Qed.

Lemma round_half_even_IZR (k : Z) : round_half_even (IZR k) = k.
Proof.
  apply round_half_even_near. lra.
Qed.

(** The rounding is within one half of its argument. *)
Lemma round_half_even_error (x : R) :
  - (1 / 2) <= IZR (round_half_even x) - x <= 1 / 2.
Proof.
  unfold round_half_even.
  pose proof (Int_part_bounds x) as [Hf1 Hf2].
  set (f := Int_part x) in *.
  destruct (Rlt_dec (x - IZR f) (1 / 2)).
  - lra.
  - destruct (Rlt_dec (1 / 2) (x - IZR f)).
    + rewrite plus_IZR. lra.
    + destruct (Z.even f); [| rewrite plus_IZR]; lra.
Qed.

Lemma round_half_even_nonneg (x : R) : 0 <= x -> (0 <= round_half_even x)%Z.
Proof.
  intros Hx. pose proof (round_half_even_error x) as He.
  apply Z.lt_succ_r, lt_IZR. rewrite succ_IZR.
  replace (Z.pred 0) with (-1)%Z by reflexivity. lra.
Qed.

Lemma round_half_even_nonpos (x : R) : x <= 0 -> (round_half_even x <= 0)%Z.
Proof.
  intros Hx. pose proof (round_half_even_error x) as He.
  apply Z.lt_succ_r, lt_IZR. rewrite succ_IZR. lra.
Qed.

Lemma pow10_pos (n : nat) : 0 < 10 ^ n.
Proof.
  apply pow_lt. lra.
Qed.

Lemma real_round_nonneg (n : nat) (x : R) : 0 <= x -> 0 <= real_round n x.
Proof.
  intros Hx. unfold real_round. pose proof (pow10_pos n) as Hp.
  apply Rmult_le_pos.
  - apply IZR_le, round_half_even_nonneg, Rmult_le_pos; lra.
  - left. now apply Rinv_0_lt_compat.
Qed.

Lemma real_round_nonpos (n : nat) (x : R) : x <= 0 -> real_round n x <= 0.
Proof.
  intros Hx. unfold real_round. pose proof (pow10_pos n) as Hp.
  assert (Hz : (round_half_even (x * 10 ^ n) <= 0)%Z).
  { apply round_half_even_nonpos. nra. }
  apply IZR_le in Hz.
  pose proof (Rinv_0_lt_compat _ Hp). unfold Rdiv. nra.
Qed.

(** [round(x, 2)] differs from [x] by at most 0.005. *)
Lemma real_round_2_error (x : R) :
  - (5 / 1000) <= real_round 2 x - x <= 5 / 1000.
Proof.
  unfold real_round. pose proof (round_half_even_error (x * 10 ^ 2)).
  simpl in *. lra.
Qed.

(** A value with two decimals is its own rounding. *)
Lemma real_round_2_exact (k : Z) : real_round 2 (IZR k / 100) = IZR k / 100.
Proof.
  unfold real_round.
  replace (IZR k / 100 * 10 ^ 2) with (IZR k) by (simpl; field).
  rewrite round_half_even_IZR. simpl. field.
Qed.

(** [round(x, 2)] is [k / 100] when [x] is strictly within 0.005 of it. *)
Lemma real_round_2_near (x : R) (k : Z) :
  IZR k / 100 - 5 / 1000 < x < IZR k / 100 + 5 / 1000 ->
  real_round 2 x = IZR k / 100.
Proof.
  intros Hx. unfold real_round.
  rewrite (round_half_even_near (x * 10 ^ 2) k); simpl; [field | lra].
Qed.

(** [round(x, 2)] always has two decimals. *)
Lemma real_round_2_decimals (x : R) : exists k : Z, real_round 2 x = IZR k / 100.
Proof.
  exists (round_half_even (x * 10 ^ 2)). unfold real_round. simpl. field.
Qed.

(** ** [calculate_power] on the reals: the shape of a run *)

(** The guard of line 7 fires exactly outside (0, 1]. *)
Lemma guard_iff (pf : R) :
  Rleb pf 0 || Rltb 1 pf = true <-> pf <= 0 \/ 1 < pf.
Proof.
  rewrite orb_true_iff, Rleb_true, Rltb_true. tauto.
Qed.

Lemma guard_false (pf : R) :
  0 < pf <= 1 -> Rleb pf 0 || Rltb 1 pf = false.
Proof.
  intros H. apply not_true_is_false. rewrite guard_iff. lra.
Qed.

Lemma real_sqrt_ok (x : R) : 0 <= x -> real_sqrt x = Ok (sqrt x).
Proof.
  intros H. unfold real_sqrt. destruct (Rlt_dec x 0); [lra | reflexivity].
Qed.

Lemma real_acos_ok (x : R) : -1 <= x <= 1 -> real_acos x = Ok (acos x).
Proof.
  intros H. unfold real_acos.
  destruct (Rle_dec (-1) x); [| lra]. destruct (Rle_dec x 1); [reflexivity | lra].
Qed.

Lemma real_truediv_ok (x y : R) : y <> 0 -> real_truediv x y = Ok (x / y).
Proof.
  intros H. unfold real_truediv. destruct (Req_dec_T y 0); [contradiction | reflexivity].
Qed.

Lemma real_truediv_zero (x : R) : real_truediv x 0 = Raise ZeroDivisionError.
Proof.
  unfold real_truediv. destruct (Req_dec_T 0 0); [reflexivity | contradiction].
Qed.

(** Past the guard, the square root and both arc cosines are in their
    domains; what is left is the branch on line 19 and its division. *)
Lemma calculate_power_locals_in_range (V_rms I_rms pf freq : R) :
  0 < pf <= 1 ->
  calculate_power_locals V_rms I_rms pf freq =
  if needs_correction V_rms I_rms pf then
    bind (real_truediv (numerator V_rms I_rms pf) (denominator V_rms freq))
         (fun C => Ok (locals_of V_rms I_rms pf (C * 1000000)))
  else
    Ok (locals_of V_rms I_rms pf 0).
Proof.
  intros Hpf. unfold calculate_power_locals, needs_correction. cbn.
  rewrite (guard_false pf Hpf). cbn.
  rewrite real_sqrt_ok by nra. cbn.
  rewrite real_acos_ok by lra. cbn.
  destruct (Rltb pf (95 / 100) && Rltb 0 (V_rms * I_rms * pf)); [| reflexivity].
  rewrite real_acos_ok by lra. reflexivity.
Qed.

Lemma needs_correction_true (V_rms I_rms pf : R) :
  needs_correction V_rms I_rms pf = true <->
  pf < 95 / 100 /\ 0 < V_rms * I_rms * pf.
Proof.
  unfold needs_correction. now rewrite andb_true_iff, !Rltb_true.
Qed.

Lemma needs_correction_false (V_rms I_rms pf : R) :
  needs_correction V_rms I_rms pf = false <->
  ~ (pf < 95 / 100 /\ 0 < V_rms * I_rms * pf).
Proof.
  rewrite <- needs_correction_true. destruct (needs_correction _ _ _); easy.
Qed.

Lemma denominator_zero (V_rms freq : R) :
  denominator V_rms freq = 0 <-> freq = 0 \/ V_rms = 0.
Proof.
  unfold denominator. pose proof PI_RGT_0 as Hpi. split.
  - intros H.
    apply Rmult_integral in H as [H | H].
    + apply Rmult_integral in H as [H | H]; [lra | now left].
    + right. apply Rmult_integral in H. tauto.
  - intros [-> | ->]; ring.
Qed.

(** Under the guard [P > 0] the voltage is not zero, so the divisor of
    line 23 vanishes only with the frequency. *)
Lemma denominator_zero_guarded (V_rms I_rms pf freq : R) :
  0 < V_rms * I_rms * pf ->
  (denominator V_rms freq = 0 <-> freq = 0).
Proof.
  intros HP. rewrite denominator_zero. split; [| tauto].
  intros [H | H]; [exact H |]. subst. lra.
Qed.

(** The three ways a call in range ends. *)
Lemma calculate_power_skip (V_rms I_rms pf freq : R) :
  0 < pf <= 1 ->
  ~ (pf < 95 / 100 /\ 0 < V_rms * I_rms * pf) ->
  calculate_power_locals V_rms I_rms pf freq = Ok (locals_of V_rms I_rms pf 0).
Proof.
  intros Hpf Hn. rewrite calculate_power_locals_in_range by assumption.
  apply needs_correction_false in Hn. now rewrite Hn.
Qed.

Lemma calculate_power_correct (V_rms I_rms pf freq : R) :
  0 < pf < 95 / 100 -> 0 < V_rms * I_rms * pf -> freq <> 0 ->
  calculate_power_locals V_rms I_rms pf freq =
  Ok (locals_of V_rms I_rms pf
        (numerator V_rms I_rms pf / denominator V_rms freq * 1000000)).
Proof.
  intros Hpf HP Hf. rewrite calculate_power_locals_in_range by lra.
  assert (Hc : needs_correction V_rms I_rms pf = true).
  { apply needs_correction_true. lra. }
  rewrite Hc, real_truediv_ok; [reflexivity |].
  rewrite (denominator_zero_guarded _ _ _ _ HP). exact Hf.
Qed.

Lemma calculate_power_div0 (V_rms I_rms pf : R) :
  0 < pf < 95 / 100 -> 0 < V_rms * I_rms * pf ->
  calculate_power_locals V_rms I_rms pf 0 = Raise ZeroDivisionError.
Proof.
  intros Hpf HP. rewrite calculate_power_locals_in_range by lra.
  assert (Hc : needs_correction V_rms I_rms pf = true).
  { apply needs_correction_true. lra. }
  rewrite Hc.
  replace (denominator V_rms 0) with 0 by (unfold denominator; ring).
  now rewrite real_truediv_zero.
Qed.

Lemma calculate_power_unfold (V_rms I_rms pf freq : R) :
  calculate_power V_rms I_rms pf freq =
  bind (calculate_power_locals V_rms I_rms pf freq)
       (fun l => Ok (power_result pf l)).
Proof.
  reflexivity.
Qed.

Lemma calculate_power_out_of_range (V_rms I_rms pf freq : R) :
  pf <= 0 \/ 1 < pf ->
  calculate_power V_rms I_rms pf freq = Raise ValueError.
Proof.
  intros H. apply guard_iff in H.
  unfold calculate_power, calculate_power_locals. cbn. now rewrite H.
Qed.

(** In range a call returns, unless it divides by zero on line 23. *)
Lemma calculate_power_outcome (V_rms I_rms pf freq : R) :
  0 < pf <= 1 ->
  (exists l, calculate_power_locals V_rms I_rms pf freq = Ok l /\
             calculate_power V_rms I_rms pf freq = Ok (power_result pf l)) \/
  (calculate_power V_rms I_rms pf freq = Raise ZeroDivisionError /\
   pf < 95 / 100 /\ 0 < V_rms * I_rms * pf /\ freq = 0).
Proof.
  intros Hpf. rewrite calculate_power_unfold.
  destruct (Rlt_dec pf (95 / 100)) as [Hlt | Hge].
  - destruct (Rlt_dec 0 (V_rms * I_rms * pf)) as [HP | HP].
    + destruct (Req_dec_T freq 0) as [-> | Hf].
      * right. rewrite calculate_power_div0 by lra. auto.
      * left. rewrite calculate_power_correct by (lra || assumption).
        eexists; split; reflexivity.
    + left. rewrite calculate_power_skip by (lra || tauto).
      eexists; split; reflexivity.
  - left. rewrite calculate_power_skip by (lra || tauto).
    eexists; split; reflexivity.
Qed.

Section AnyArithmetic.

Context {F : Type} {num : PyNum F}.

(** Whatever the arithmetic, a record that is returned is the [return]
    statement applied to the locals of a run that reached it. *)
Lemma calculate_power_returns_inv (V_rms I_rms pf freq : F) (r : PowerResult F) :
  calculate_power V_rms I_rms pf freq = Ok r ->
  exists l, calculate_power_locals V_rms I_rms pf freq = Ok l /\
            r = power_result pf l.
Proof.
  unfold calculate_power. intros Hr.
  destruct (calculate_power_locals V_rms I_rms pf freq) as [l | e];
    [| discriminate].
  cbn in Hr. injection Hr as <-. now exists l.
Qed.

(** Whatever the arithmetic, the guard of line 7 raises [ValueError]
    before anything is computed. *)
Lemma calculate_power_guard (V_rms I_rms pf freq : F) :
  leb pf lit_0 || ltb lit_1 pf = true ->
  calculate_power V_rms I_rms pf freq = Raise ValueError.
Proof.
  intros H. unfold calculate_power, calculate_power_locals. now rewrite H.
Qed.

(** The power factor is handed back as it was given. *)
Lemma power_result_pf (pf : F) (l : PowerLocals F) :
  res_pf (power_result pf l) = pf.
Proof.
  reflexivity.
Qed.

End AnyArithmetic.

Lemma scenario_locals_eq :
  calculate_power_locals 230 5 (8 / 10) 50 = Ok scenario_locals.
Proof.
  apply calculate_power_correct; lra.
Qed.

(** The scenario of the specification enters the correction branch and
    returns. *)
Lemma scenario_returns :
  calculate_power 230 5 (8 / 10) 50 =
  Ok (power_result (8 / 10) scenario_locals).
Proof.
  rewrite calculate_power_unfold, calculate_power_correct by lra. reflexivity.
Qed.

(** ** The claims *)

(** C1.  [calculate_power] raises [ValueError], the script's invalid-input
    error, exactly when the power factor is at most 0 or above 1, and then
    returns no result: a call that returns a record has its power factor
    in (0, 1]. *)
Theorem calculate_power_invalid_input (V_rms I_rms pf freq : R) :
  (calculate_power V_rms I_rms pf freq = Raise ValueError <->
   pf <= 0 \/ 1 < pf) /\
  (forall r, calculate_power V_rms I_rms pf freq = Ok r -> 0 < pf <= 1).
Proof.
  split; [split |].
  - intros Hraise.
    destruct (Rle_dec pf 0) as [H0 | H0]; [now left |].
    destruct (Rlt_dec 1 pf) as [H1 | H1]; [now right |].
    exfalso.
    destruct (calculate_power_outcome V_rms I_rms pf freq) as [[l [_ H]] | [H _]];
      [lra | |]; rewrite H in Hraise; discriminate.
  - apply calculate_power_out_of_range.
  - intros r Hr.
    destruct (Rle_dec pf 0) as [H0 | H0];
      [rewrite calculate_power_out_of_range in Hr by tauto; discriminate |].
    destruct (Rlt_dec 1 pf) as [H1 | H1];
      [rewrite calculate_power_out_of_range in Hr by tauto; discriminate |].
    lra.
Qed.

(** C5.  With the power factor in [0.95, 1] the call returns a record
    whose [required_C] is 0. *)
Theorem required_C_zero_at_target (V_rms I_rms pf freq : R) :
  95 / 100 <= pf <= 1 ->
  exists r, calculate_power V_rms I_rms pf freq = Ok r /\
            res_required_C r = 0.
Proof.
  intros Hpf. rewrite calculate_power_unfold.
  rewrite calculate_power_skip by lra.
  eexists; split; [reflexivity |]. cbn.
  replace 0 with (IZR 0 / 100) by lra. apply real_round_2_exact.
Qed.

Lemma required_C_zero_at_target_witness :
  exists r, calculate_power 230 5 (96 / 100) 50 = Ok r /\
            res_required_C r = 0.
Proof.
  apply (required_C_zero_at_target 230 5 (96 / 100) 50). lra.
Defined.

(** What a returning call in range left in its locals. *)
Lemma calculate_power_locals_inv (V_rms I_rms pf freq : R) (l : PowerLocals R) :
  0 < pf <= 1 ->
  calculate_power_locals V_rms I_rms pf freq = Ok l ->
  (pf < 95 / 100 /\ 0 < V_rms * I_rms * pf /\ freq <> 0 /\
   l = locals_of V_rms I_rms pf
         (numerator V_rms I_rms pf / denominator V_rms freq * 1000000)) \/
  (~ (pf < 95 / 100 /\ 0 < V_rms * I_rms * pf) /\
   l = locals_of V_rms I_rms pf 0).
Proof.
  intros Hpf Hl.
  destruct (Rlt_dec pf (95 / 100)) as [Hlt | Hge].
  - destruct (Rlt_dec 0 (V_rms * I_rms * pf)) as [HP | HP].
    + destruct (Req_dec_T freq 0) as [-> | Hf].
      * rewrite calculate_power_div0 in Hl by lra. discriminate.
      * rewrite calculate_power_correct in Hl by (lra || assumption).
        left. injection Hl as <-. auto.
    + rewrite calculate_power_skip in Hl by (lra || tauto).
      right. injection Hl as <-. split; [tauto | reflexivity].
  - rewrite calculate_power_skip in Hl by (lra || tauto).
    right. injection Hl as <-. split; [tauto | reflexivity].
Qed.

(** C2.  In range, the locals of a call that returns hold the values of
    the specification's formulas: [S = V * I], [P = S * pf],
    [Q = S * sqrt (1 - pf ^ 2)], [thetaDeg = arccos pf * 180 / pi] and,
    when [pf < 0.95] and [P > 0], the capacitance
    [1e6 * P * (tan (arccos pf) - tan (arccos 0.95)) / (2 pi f V^2)],
    which is 0 otherwise; the record returned is built from them. *)
Theorem formulas_as_specified (V_rms I_rms pf freq : R) (r : PowerResult R) :
  0 < pf <= 1 ->
  calculate_power V_rms I_rms pf freq = Ok r ->
  exists l,
    calculate_power_locals V_rms I_rms pf freq = Ok l /\
    r = power_result pf l /\
    loc_S l = spec_S V_rms I_rms /\
    loc_P l = spec_P V_rms I_rms pf /\
    loc_Q l = spec_Q V_rms I_rms pf /\
    loc_theta_deg l = spec_thetaDeg pf /\
    (pf < 95 / 100 -> 0 < spec_P V_rms I_rms pf ->
     loc_c_microfarad l = spec_capacitance_uF V_rms I_rms pf freq) /\
    (~ (pf < 95 / 100 /\ 0 < spec_P V_rms I_rms pf) ->
     loc_c_microfarad l = 0).
Proof.
  intros Hpf Hr. rewrite calculate_power_unfold in Hr.
  destruct (calculate_power_locals V_rms I_rms pf freq) as [l | e] eqn:Hl;
    [| discriminate].
  cbn in Hr. injection Hr as <-.
  exists l. split; [reflexivity |]. split; [reflexivity |].
  pose proof PI_RGT_0 as Hpi.
  assert (Hsq : 1 - pf ^ 2 = 1 - pf * pf) by ring.
  destruct (calculate_power_locals_inv _ _ _ _ _ Hpf Hl)
    as [(Hlt & HP & Hf & ->) | (Hn & ->)];
    unfold spec_capacitance_uF, spec_thetaDeg, spec_Q, spec_P, spec_S;
    cbn [locals_of loc_S loc_P loc_Q loc_theta_deg loc_c_microfarad];
    rewrite Hsq.
  - repeat split; try reflexivity.
    + unfold Rdiv. ring.
    + intros _ _. unfold numerator, denominator.
      assert (V_rms <> 0) by (intros ->; lra).
      field. repeat split; assumption || lra.
    + tauto.
  - repeat split; try reflexivity.
    + unfold Rdiv. ring.
    + intros H1 H2. tauto.
Qed.

Lemma formulas_as_specified_witness :
  0 < 8 / 10 <= 1 /\
  calculate_power 230 5 (8 / 10) 50 =
  Ok (power_result (8 / 10) scenario_locals) /\
  exists l,
    calculate_power_locals 230 5 (8 / 10) 50 = Ok l /\
    power_result (8 / 10) scenario_locals = power_result (8 / 10) l /\
    loc_S l = spec_S 230 5 /\
    loc_P l = spec_P 230 5 (8 / 10) /\
    loc_Q l = spec_Q 230 5 (8 / 10) /\
    loc_theta_deg l = spec_thetaDeg (8 / 10) /\
    (8 / 10 < 95 / 100 -> 0 < spec_P 230 5 (8 / 10) ->
     loc_c_microfarad l = spec_capacitance_uF 230 5 (8 / 10) 50) /\
    (~ (8 / 10 < 95 / 100 /\ 0 < spec_P 230 5 (8 / 10)) ->
     loc_c_microfarad l = 0).
Proof.
  assert (Hpf : 0 < 8 / 10 <= 1) by lra.
  split; [exact Hpf |]. split; [exact scenario_returns |].
  exact (formulas_as_specified 230 5 (8 / 10) 50 _ Hpf scenario_returns).
Defined.

Lemma two_decimals_round (x : R) : two_decimals (real_round 2 x).
Proof.
  apply real_round_2_decimals.
Qed.

Lemma two_decimals_0 : two_decimals 0.
Proof.
  exists 0%Z. lra.
Qed.

(** On a tie the rounding is the even neighbour. *)
Lemma round_half_even_tie (z : R) :
  IZR (round_half_even z) - z = 1 / 2 \/
  IZR (round_half_even z) - z = - (1 / 2) ->
  Z.even (round_half_even z) = true.
Proof.
  unfold round_half_even.
  pose proof (Int_part_bounds z) as [Hf1 Hf2].
  set (f := Int_part z) in *.
  destruct (Rlt_dec (z - IZR f) (1 / 2)) as [Hlo | Hlo].
  { intros [H | H]; lra. }
  destruct (Rlt_dec (1 / 2) (z - IZR f)) as [Hhi | Hhi].
  { rewrite plus_IZR. intros [H | H]; lra. }
  intros _. destruct (Z.even f) eqn:He; [exact He |].
  rewrite Z.add_1_r, Z.even_succ, <- Z.negb_even, He. reflexivity.
Qed.

(** [round(x, 2)] is [x] rounded to two decimals in the sense of
    [rounds_to_2]. *)
Lemma real_round_2_spec (x : R) : rounds_to_2 x (real_round 2 x).
Proof.
  exists (round_half_even (x * 10 ^ 2)).
  split; [unfold real_round; simpl; field |].
  split; [apply real_round_2_error |].
  intros Htie. apply round_half_even_tie.
  unfold real_round in Htie. simpl in *.
  destruct Htie as [H | H]; [left | right]; lra.
Qed.

(** [rounds_to_2] leaves no choice: two roundings of one value agree. *)
Lemma rounds_to_2_unique (x y y' : R) :
  rounds_to_2 x y -> rounds_to_2 x y' -> y = y'.
Proof.
  intros (k & -> & Hk & Hke) (k' & -> & Hk' & Hke').
  assert (Hd : (k = k' \/ k = k' + 1 \/ k' = k + 1)%Z).
  { assert (H1 : (k < k' + 2)%Z) by (apply lt_IZR; rewrite plus_IZR; lra).
    assert (H2 : (k' < k + 2)%Z) by (apply lt_IZR; rewrite plus_IZR; lra).
    lia. }
  destruct Hd as [-> | [-> | ->]]; [reflexivity | |]; exfalso.
  - rewrite plus_IZR in *.
    assert (He : Z.even (k' + 1) = true) by (apply Hke; lra).
    assert (He' : Z.even k' = true) by (apply Hke'; lra).
    rewrite Z.add_1_r, Z.even_succ, <- Z.negb_even, He' in He. discriminate.
  - rewrite plus_IZR in *.
    assert (He : Z.even k = true) by (apply Hke; lra).
    assert (He' : Z.even (k + 1) = true) by (apply Hke'; lra).
    rewrite Z.add_1_r, Z.even_succ, <- Z.negb_even, He in He'. discriminate.
Qed.

(** C8.  In a record returned by [calculate_power] the fields [S], [P],
    [Q], [theta_deg] and [required_C] are the locals rounded to two
    decimals ([Q] being the literal 0 when [pf] is not below 1): each is
    the multiple of 0.01 nearest to its local, within 0.005 of it, the
    even one on a tie, so each has at most two decimals; the field [pf]
    is the argument itself. *)
Theorem result_fields_rounded (V_rms I_rms pf freq : R) (r : PowerResult R) :
  calculate_power V_rms I_rms pf freq = Ok r ->
  (exists l,
     calculate_power_locals V_rms I_rms pf freq = Ok l /\
     res_S r = real_round 2 (loc_S l) /\
     res_P r = real_round 2 (loc_P l) /\
     res_Q r = (if Rltb pf 1 then real_round 2 (loc_Q l) else 0) /\
     res_theta_deg r = real_round 2 (loc_theta_deg l) /\
     res_required_C r = real_round 2 (loc_c_microfarad l) /\
     rounds_to_2 (loc_S l) (res_S r) /\
     rounds_to_2 (loc_P l) (res_P r) /\
     (if Rltb pf 1 then rounds_to_2 (loc_Q l) (res_Q r) else res_Q r = 0) /\
     rounds_to_2 (loc_theta_deg l) (res_theta_deg r) /\
     rounds_to_2 (loc_c_microfarad l) (res_required_C r)) /\
  (two_decimals (res_S r) /\ two_decimals (res_P r) /\
   two_decimals (res_Q r) /\ two_decimals (res_theta_deg r) /\
   two_decimals (res_required_C r)) /\
  res_pf r = pf.
Proof.
  intros Hr.
  destruct (calculate_power_returns_inv _ _ _ _ _ Hr) as (l & Hl & ->).
  split; [| split].
  - exists l. cbn [power_result res_S res_P res_Q res_theta_deg
                   res_required_C round_nd ltb lit_1 lit_0 real_num].
    repeat (split; [assumption || reflexivity |]).
    repeat (split; [apply real_round_2_spec |]).
    split; [destruct (Rltb pf 1); [apply real_round_2_spec | reflexivity] |].
    split; apply real_round_2_spec.
  - cbn. repeat split; try apply two_decimals_round.
    destruct (Rltb pf 1); [apply two_decimals_round | apply two_decimals_0].
  - reflexivity.
Qed.

Lemma result_fields_rounded_witness :
  calculate_power 230 5 (8 / 10) 50 =
  Ok (power_result (8 / 10) scenario_locals) /\
  rounds_to_2 (loc_S scenario_locals)
              (res_S (power_result (8 / 10) scenario_locals)) /\
  two_decimals (res_S (power_result (8 / 10) scenario_locals)) /\
  res_pf (power_result (8 / 10) scenario_locals) = 8 / 10.
Proof.
  split; [exact scenario_returns |].
  destruct (result_fields_rounded 230 5 (8 / 10) 50 _ scenario_returns)
    as ((l & Hl & _ & _ & _ & _ & _ & HS & _) & (H2 & _) & Hpf).
  rewrite scenario_locals_eq in Hl. injection Hl as <-.
  split; [exact HS |]. split; [exact H2 | exact Hpf].
Defined.

(** *** Sign of the capacitance *)

Lemma tan_acos_formula (x : R) :
  0 < x <= 1 -> tan (acos x) = sqrt (1 - x * x) / x.
Proof.
  intros Hx. rewrite tan_acos by lra. reflexivity.
Qed.





(** *** Rounding to zero *)

Lemma round_half_even_tie_up : round_half_even (1 / 2) = 0%Z.
Proof.
  unfold round_half_even.
  rewrite <- (Int_part_spec (1 / 2) 0) by lra.
  destruct (Rlt_dec (1 / 2 - 0) (1 / 2)); [lra |].
  destruct (Rlt_dec (1 / 2) (1 / 2 - 0)); [lra | reflexivity].
Qed.

Lemma round_half_even_tie_down : round_half_even (- (1 / 2)) = 0%Z.
Proof.
  unfold round_half_even.
  rewrite <- (Int_part_spec (- (1 / 2)) (-1)) by lra.
  destruct (Rlt_dec (- (1 / 2) - -1) (1 / 2)); [lra |].
  destruct (Rlt_dec (1 / 2) (- (1 / 2) - -1)); [lra | reflexivity].
Qed.

(** [round(x, 2)] is 0 exactly on [-0.005, 0.005]: both ties go to the
    even digit 0. *)
Lemma real_round_2_zero (x : R) :
  real_round 2 x = 0 <-> - (5 / 1000) <= x <= 5 / 1000.
Proof.
  split.
  - intros H. pose proof (real_round_2_error x). lra.
  - intros [Hlo Hhi].
    destruct (Req_dec_T x (5 / 1000)) as [-> | Hne1].
    { unfold real_round.
      replace (5 / 1000 * 10 ^ 2) with (1 / 2) by (simpl; lra).
      rewrite round_half_even_tie_up. simpl. lra. }
    destruct (Req_dec_T x (- (5 / 1000))) as [-> | Hne2].
    { unfold real_round.
      replace (- (5 / 1000) * 10 ^ 2) with (- (1 / 2)) by (simpl; lra).
      rewrite round_half_even_tie_down. simpl. lra. }
    rewrite (real_round_2_near x 0); lra.
Qed.

(** *** The scenario values at power factor 0.8 *)

Lemma sqrt_1_minus_sq_08 : sqrt (1 - 8 / 10 * (8 / 10)) = 6 / 10.
Proof.
  apply sqrt_lem_1; lra.
Qed.

Lemma tan_acos_08 : tan (acos (8 / 10)) = 3 / 4.
Proof.
  rewrite tan_acos_formula by lra. rewrite sqrt_1_minus_sq_08. lra.
Qed.



(** The reactive power behind a returned record. *)
Lemma returned_record_Q (V_rms I_rms pf freq : R) (r : PowerResult R) :
  0 < pf <= 1 ->
  calculate_power V_rms I_rms pf freq = Ok r ->
  exists l, r = power_result pf l /\ loc_Q l = spec_Q V_rms I_rms pf.
Proof.
  intros Hpf Hr.
  destruct (calculate_power_returns_inv _ _ _ _ _ Hr) as (l & Hl & ->).
  exists l. split; [reflexivity |].
  assert (Hsq : 1 - pf ^ 2 = 1 - pf * pf) by ring.
  unfold spec_Q, spec_S. rewrite Hsq.
  destruct (calculate_power_locals_inv _ _ _ _ _ Hpf Hl)
    as [(_ & _ & _ & ->) | (_ & ->)]; reflexivity.
Qed.

(** C3, as the code has it.  For a call in range that returns: [Q] is 0
    when [pf = 1]; when [pf < 1] it is [S * sqrt (1 - pf ^ 2)] rounded
    to two decimals, which is 0 exactly when that product lies in
    [-0.005, 0.005]; and [Q] is not negative when [V * I] is not. *)
Theorem reactive_power_sign (V_rms I_rms pf freq : R) (r : PowerResult R) :
  0 < pf <= 1 ->
  calculate_power V_rms I_rms pf freq = Ok r ->
  (pf = 1 -> res_Q r = 0) /\
  (pf < 1 -> res_Q r = real_round 2 (spec_Q V_rms I_rms pf)) /\
  (pf < 1 ->
   (res_Q r = 0 <->
    - (5 / 1000) <= spec_Q V_rms I_rms pf <= 5 / 1000)) /\
  (0 <= V_rms * I_rms -> 0 <= res_Q r).
Proof.
  intros Hpf Hr.
  destruct (returned_record_Q _ _ _ _ _ Hpf Hr) as (l & -> & HQ).
  cbn [power_result res_Q]. rewrite HQ. cbn [ltb real_num lit_1 lit_0 round_nd].
  assert (Hlt : pf < 1 -> Rltb pf 1 = true) by apply Rltb_true.
  assert (Hge : pf = 1 -> Rltb pf 1 = false) by (intros; apply Rltb_false; lra).
  split; [| split; [| split]].
  - intros H1. now rewrite (Hge H1).
  - intros H1. now rewrite (Hlt H1).
  - intros H1. rewrite (Hlt H1). apply real_round_2_zero.
  - intros HS. destruct (Rltb pf 1); [| lra].
    apply real_round_nonneg. unfold spec_Q, spec_S.
    apply Rmult_le_pos; [exact HS | apply sqrt_pos].
Qed.

Lemma reactive_power_sign_witness :
  0 < 1 <= 1 /\
  calculate_power 230 5 1 50 = Ok (power_result 1 (locals_of 230 5 1 0)) /\
  res_Q (power_result 1 (locals_of 230 5 1 0)) = 0.
Proof.
  assert (Hpf : 0 < 1 <= 1) by lra.
  assert (Hr : calculate_power 230 5 1 50 =
               Ok (power_result 1 (locals_of 230 5 1 0))).
  { rewrite calculate_power_unfold, calculate_power_skip by lra. reflexivity. }
  split; [exact Hpf |]. split; [exact Hr |].
  exact (proj1 (reactive_power_sign 230 5 1 50 _ Hpf Hr) eq_refl).
Defined.

(** C3 fails as stated: a negative voltage gives a negative [Q], and a
    zero voltage gives [Q = 0] at a power factor that is not 1. *)
Lemma reactive_power_counterexample :
  0 < 8 / 10 <= 1 /\
  (exists r, calculate_power (-230) 5 (8 / 10) 50 = Ok r /\ res_Q r < 0) /\
  (exists r, calculate_power 0 5 (8 / 10) 50 = Ok r /\
             res_Q r = 0 /\ 8 / 10 <> 1).
Proof.
  split; [lra |]. split.
  - rewrite calculate_power_unfold, calculate_power_skip by lra.
    eexists; split; [reflexivity |].
    cbn [power_result res_Q locals_of loc_Q ltb real_num lit_1 round_nd].
    rewrite (proj2 (Rltb_true (8 / 10) 1)) by lra.
    rewrite sqrt_1_minus_sq_08.
    pose proof (real_round_2_error (-230 * 5 * (6 / 10))). lra.
  - rewrite calculate_power_unfold, calculate_power_skip by lra.
    eexists; split; [reflexivity |].
    cbn [power_result res_Q locals_of loc_Q ltb real_num lit_1 round_nd].
    rewrite (proj2 (Rltb_true (8 / 10) 1)) by lra.
    split; [| lra]. apply real_round_2_zero. lra.
Qed.

(** [round(x, 2)] is positive exactly above 0.005: the tie at 0.005
    goes down to the even digit. *)
Lemma real_round_2_pos (x : R) : 0 < real_round 2 x <-> 5 / 1000 < x.
Proof.
  split.
  - intros H. destruct (Rlt_dec (5 / 1000) x) as [Hx | Hx]; [exact Hx |].
    exfalso. destruct (Rle_dec (- (5 / 1000)) x) as [Hlo | Hlo].
    + assert (real_round 2 x = 0) by (apply real_round_2_zero; lra). lra.
    + pose proof (real_round_nonpos 2 x ltac:(lra)). lra.
  - intros H. pose proof (real_round_2_error x). lra.
Qed.








(** C10, in exact arithmetic.  With the power factor in range and a
    frequency that is not 0 the call returns.  The divisor of its one
    division is [2 * pi * freq * V_rms ^ 2]; on the path that divides,
    [P > 0] makes the voltage differ from 0, so that the divisor is 0
    only when the frequency is. *)
Theorem returns_when_frequency_nonzero (V_rms I_rms pf freq : R) :
  0 < pf <= 1 -> freq <> 0 ->
  returns (calculate_power V_rms I_rms pf freq) /\
  (0 < V_rms * I_rms * pf ->
   V_rms <> 0 /\ 2 * PI * freq * (V_rms * V_rms) <> 0).
Proof.
  intros Hpf Hf. split.
  - destruct (calculate_power_outcome V_rms I_rms pf freq Hpf)
      as [(l & _ & H) | (_ & _ & _ & H)]; [| contradiction].
    now exists (power_result pf l).
  - intros HP.
    split; [intros ->; lra |].
    intros Hz. apply Hf.
    apply (denominator_zero_guarded V_rms I_rms pf freq HP). exact Hz.
Qed.

Lemma returns_when_frequency_nonzero_witness :
  returns (calculate_power 230 5 (8 / 10) 50) /\
  (0 < 230 * 5 * (8 / 10) ->
   230 <> 0 /\ 2 * PI * 50 * (230 * 230) <> 0).
Proof.
  apply (returns_when_frequency_nonzero 230 5 (8 / 10) 50); lra.
Defined.

(** ** [plot_waveforms] *)

Lemma INR_999_neq_0 : INR (1000 - 1) <> 0.
Proof.
  apply not_0_INR. discriminate.
Qed.

(** The time base never fails once [cycles / freq] is defined. *)
Lemma linspace0_1000_ok (stop : R) :
  linspace0 stop 1000 =
  Ok (map (fun k => INR k * (stop / INR (1000 - 1)) + 0) (seq 0 (1000 - 1))
      ++ [stop]).
Proof.
  unfold linspace0. cbn [truediv of_nat real_num].
  rewrite real_truediv_ok by apply INR_999_neq_0. reflexivity.
Qed.

(** C9.  In [plot_waveforms], once the frequency is not 0 and the power
    factor is a cosine, the division [v_len / I_rms] of the scale factor
    is a division by zero exactly for a current of 0: the call then
    raises [ZeroDivisionError]; for every other current the scale factor
    is [V_rms / I_rms * 0.7] and the call returns. *)
Theorem scale_factor_division (V_rms I_rms pf freq cycles : R) :
  freq <> 0 -> -1 <= pf <= 1 ->
  (truediv V_rms I_rms = Raise ZeroDivisionError <-> I_rms = 0) /\
  (I_rms = 0 ->
   plot_waveforms V_rms I_rms pf freq cycles = Raise ZeroDivisionError) /\
  (I_rms <> 0 ->
   exists fig, plot_waveforms V_rms I_rms pf freq cycles = Ok fig /\
               fig_scale_factor fig = V_rms / I_rms * (7 / 10)).
Proof.
  intros Hf Hpf.
  split; [| split].
  - cbn [truediv real_num]. unfold real_truediv.
    destruct (Req_dec_T I_rms 0); split; intros; congruence.
  - intros ->. unfold plot_waveforms.
    cbn [truediv math_acos real_num].
    rewrite real_truediv_ok by exact Hf. cbn [bind].
    rewrite linspace0_1000_ok. cbn [bind].
    rewrite real_acos_ok by exact Hpf. cbn [bind].
    rewrite real_truediv_zero. reflexivity.
  - intros HI. unfold plot_waveforms.
    cbn [truediv math_acos math_cos math_sin real_num].
    rewrite real_truediv_ok by exact Hf. cbn [bind].
    rewrite linspace0_1000_ok. cbn [bind].
    rewrite real_acos_ok by exact Hpf. cbn [bind].
    rewrite real_truediv_ok by exact HI. cbn [bind].
    eexists; split; [reflexivity |]. reflexivity.
Qed.

(** ** The 230 V, 5 A, power factor 0.8, 50 Hz scenario *)

(** The arc tangent between consecutive partial sums of its series. *)
Lemma atan_series_bounds (x : R) (N : nat) :
  0 < x < 1 ->
  sum_f_R0 (tg_alt (Ratan_seq x)) (S (2 * N)) <= atan x <=
  sum_f_R0 (tg_alt (Ratan_seq x)) (2 * N).
Proof.
  intros Hx.
  assert (Hx01 : 0 <= x <= 1) by lra.
  rewrite atan_eq_ps_atan by exact Hx.
  unfold ps_atan.
  destruct (Ratan.in_int x) as [Hin | Hout]; [| exfalso; apply Hout; lra].
  destruct (ps_atan_exists_1 x Hin) as [v Hv].
  apply alternated_series_ineq.
  - now apply Ratan_seq_decreasing.
  - now apply Ratan_seq_converging.
  - exact Hv.
Qed.

Lemma atan_inv_7_bounds :
  141897 / 1000000 < atan (/ 7) < 1418973 / 10000000.
Proof.
  pose proof (atan_series_bounds (/ 7) 1 ltac:(lra)) as [Hlo Hhi].
  unfold sum_f_R0, tg_alt, Ratan_seq in Hlo, Hhi. simpl in Hlo, Hhi.
  lra.
Qed.

Lemma atan_inv_3_bounds :
  321745 / 1000000 < atan (/ 3) < 321811 / 1000000.
Proof.
  pose proof (atan_series_bounds (/ 3) 1 ltac:(lra)) as [Hlo Hhi].
  unfold sum_f_R0, tg_alt, Ratan_seq in Hlo, Hhi. simpl in Hlo, Hhi.
  lra.
Qed.

Lemma PI_bounds : 3141548 / 1000000 < PI < 31420772 / 10000000.
Proof.
  pose proof Machin_2_3_7 as HM.
  pose proof atan_inv_7_bounds. pose proof atan_inv_3_bounds.
  lra.
Qed.

(** [arccos 0.8] is [arctan (3/4)], which is [pi/4 - arctan (1/7)]. *)
Lemma acos_08 : acos (8 / 10) = PI / 4 - atan (/ 7).
Proof.
  rewrite acos_atan by lra.
  replace (sqrt (1 - (8 / 10)²)) with (6 / 10)
    by (symmetry; unfold Rsqr; apply sqrt_1_minus_sq_08).
  replace (6 / 10 / (8 / 10)) with (3 / 4) by lra.
  rewrite <- atan_1.
  rewrite (atan_sub_correct 1 (3 / 4)).
  - replace (atan_sub 1 (3 / 4)) with (/ 7) by (unfold atan_sub; lra). lra.
  - lra.
  - apply tech; lra.
  - apply atan_bound.
Qed.

Lemma sqrt_1_minus_sq_095_bounds :
  312249 / 1000000 < sqrt (1 - 95 / 100 * (95 / 100)) < 31225 / 100000.
Proof.
  set (s := sqrt (1 - 95 / 100 * (95 / 100))).
  assert (Hs0 : 0 <= s) by apply sqrt_pos.
  assert (Hss : s * s = 1 - 95 / 100 * (95 / 100))
    by (apply sqrt_sqrt; lra).
  split.
  - destruct (Rlt_dec (312249 / 1000000) s) as [H | H]; [exact H |].
    exfalso.
    assert (s * s <= 312249 / 1000000 * (312249 / 1000000))
      by (apply Rmult_le_compat; lra).
    lra.
  - destruct (Rlt_dec s (31225 / 100000)) as [H | H]; [exact H |].
    exfalso.
    assert (31225 / 100000 * (31225 / 100000) <= s * s)
      by (apply Rmult_le_compat; lra).
    lra.
Qed.

Lemma real_round_2_value (x v : R) (k : Z) :
  v = IZR k / 100 ->
  v - 5 / 1000 < x < v + 5 / 1000 ->
  real_round 2 x = v.
Proof.
  intros -> Hx. now apply real_round_2_near.
Qed.

Lemma theta_deg_08_bounds :
  3687 / 100 - 5 / 1000 < acos (8 / 10) * (180 / PI) < 3687 / 100 + 5 / 1000.
Proof.
  rewrite acos_08.
  pose proof PI_bounds as [Hp1 Hp2]. pose proof atan_inv_7_bounds as [Hb1 Hb2].
  replace ((PI / 4 - atan (/ 7)) * (180 / PI))
    with (45 - 180 * atan (/ 7) / PI) by (field; lra).
  assert (HPI : 0 < PI) by lra.
  split.
  - assert (180 * atan (/ 7) / PI < 8135 / 1000); [| lra].
    apply Rmult_lt_reg_r with (r := PI); [exact HPI |].
    replace (180 * atan (/ 7) / PI * PI) with (180 * atan (/ 7))
      by (field; lra).
    lra.
  - assert (8125 / 1000 < 180 * atan (/ 7) / PI); [| lra].
    apply Rmult_lt_reg_r with (r := PI); [exact HPI |].
    replace (180 * atan (/ 7) / PI * PI) with (180 * atan (/ 7))
      by (field; lra).
    lra.
Qed.

Lemma capacitance_08_bounds :
  2332 / 100 - 5 / 1000
  < numerator 230 5 (8 / 10) / denominator 230 50 * 1000000
  < 2332 / 100 + 5 / 1000.
Proof.
  unfold numerator, denominator.
  rewrite tan_acos_08, tan_acos_formula by lra.
  pose proof PI_bounds as [Hp1 Hp2].
  pose proof sqrt_1_minus_sq_095_bounds as [Hs1 Hs2].
  set (s := sqrt (1 - 95 / 100 * (95 / 100))) in *.
  assert (Hden : 0 < 2 * PI * 50 * (230 * 230)) by lra.
  set (c := 230 * 5 * (8 / 10) * (3 / 4 - s / (95 / 100)) /
            (2 * PI * 50 * (230 * 230)) * 1000000).
  assert (Hc : c * (2 * PI * 50 * (230 * 230)) =
               230 * 5 * (8 / 10) * (3 / 4 - s / (95 / 100)) * 1000000)
    by (unfold c; field; lra).
  split.
  - apply Rmult_lt_reg_r with (r := 2 * PI * 50 * (230 * 230));
      [exact Hden |].
    rewrite Hc. lra.
  - apply Rmult_lt_reg_r with (r := 2 * PI * 50 * (230 * 230));
      [exact Hden |].
    rewrite Hc. lra.
Qed.

(** C7.  [calculate_power(230, 5, 0.8, 50)] returns [S = 1150.0],
    [P = 920.0], [Q = 690.0], a phase angle of 36.87 degrees, the power
    factor 0.8 and a required capacitance of 23.32 microfarad, which is
    positive. *)
Theorem scenario_230_5_08_50 :
  calculate_power 230 5 (8 / 10) 50 =
  Ok (mkPowerResult 1150 920 690 (3687 / 100) (8 / 10) (2332 / 100)) /\
  0 < 2332 / 100.
Proof.
  split; [| lra].
  rewrite calculate_power_unfold, calculate_power_correct by lra.
  cbn [bind]. unfold power_result, locals_of.
  cbn [loc_S loc_P loc_Q loc_theta_deg loc_c_microfarad round_nd ltb lit_1
       real_num].
  rewrite (proj2 (Rltb_true (8 / 10) 1)) by lra.
  rewrite sqrt_1_minus_sq_08.
  rewrite (real_round_2_value (230 * 5) 1150 115000) by lra.
  rewrite (real_round_2_value (230 * 5 * (8 / 10)) 920 92000) by lra.
  rewrite (real_round_2_value (230 * 5 * (6 / 10)) 690 69000) by lra.
  rewrite (real_round_2_value _ (3687 / 100) 3687 eq_refl theta_deg_08_bounds).
  rewrite (real_round_2_value _ (2332 / 100) 2332 eq_refl capacitance_08_bounds).
  reflexivity.
Qed.

Lemma scale_factor_division_witness :
  (truediv 230 5 = Raise ZeroDivisionError <-> 5 = 0) /\
  (5 = 0 ->
   plot_waveforms 230 5 (8 / 10) 50 3 = Raise ZeroDivisionError) /\
  (5 <> 0 ->
   exists fig, plot_waveforms 230 5 (8 / 10) 50 3 = Ok fig /\
               fig_scale_factor fig = 230 / 5 * (7 / 10)).
Proof.
  apply (scale_factor_division 230 5 (8 / 10) 50 3); lra.
Defined.

(** ** Binary64: where exact arithmetic and the interpreter part *)

Section Binary64Runs.

Import Binary64.

Local Open Scope float_scope.

Variable rt : CRuntime.

Lemma math_1_finite (f : float -> float) (can_overflow : bool) (x : float) :
  finite_at f x -> math_1 f can_overflow x = Ok (f x).
Proof.
  unfold finite_at, math_1, PrimFloat.is_finite. intros H.
  apply negb_true_iff, orb_false_iff in H as [Hnan Hinf].
  now rewrite Hnan, Hinf.
Qed.

(** Whatever [libm] returns, [math_1] either raises [ValueError] or hands
    the value on. *)
Lemma math_1_cases (f : float -> float) (x : float) :
  math_1 f false x = Raise ValueError \/ math_1 f false x = Ok (f x).
Proof.
  unfold math_1.
  destruct (PrimFloat.is_nan (f x) && negb (PrimFloat.is_nan x)); [now left |].
  destruct (PrimFloat.is_infinity (f x) && PrimFloat.is_finite x); auto.
Qed.

(** Follow a run through its [libm] calls: each either raises or hands
    its value on. *)
Ltac libm_cases :=
  repeat match goal with
  | |- context [math_1 ?f false ?x] =>
      destruct (math_1_cases f x) as [-> | ->]; cbn
  end.

(** The same run when the calls are known to come back finite. *)
Ltac libm_finite :=
  repeat (rewrite math_1_finite by assumption; cbn).

(** With [V_rms = 1e-200], [I_rms = 1e300] and [pf = 0.5] the active
    power is 5e99, but [V_rms ** 2] underflows to 0.0: line 23 divides by
    zero although the frequency is 50. *)
Lemma binary64_underflow_run :
  raises (calculate_power (num := float_num rt) 1e-200 1e300 0.5 50) /\
  (libm_finite_for rt 0.5 ->
   calculate_power (num := float_num rt) 1e-200 1e300 0.5 50 =
   Raise ZeroDivisionError).
Proof.
  unfold raises, libm_finite_for, calculate_power, calculate_power_locals.
  cbn. split.
  - libm_cases; now eexists.
  - intros (H1 & H2 & H3 & H4). now libm_finite.
Qed.

(** With [V_rms = 1e200] the square overflows, and CPython turns the
    overflow of [**] into [OverflowError]. *)
Lemma binary64_overflow_run :
  raises (calculate_power (num := float_num rt) 1e200 1 0.5 50) /\
  (libm_finite_for rt 0.5 ->
   calculate_power (num := float_num rt) 1e200 1 0.5 50 =
   Raise OverflowError).
Proof.
  unfold raises, libm_finite_for, calculate_power, calculate_power_locals.
  cbn. split.
  - libm_cases; now eexists.
  - intros (H1 & H2 & H3 & H4). now libm_finite.
Qed.

(** At frequency 0 the division of line 23 raises in binary64 as it does
    on the reals. *)
Lemma binary64_zero_frequency_run :
  raises (calculate_power (num := float_num rt) 230 5 0.8 0) /\
  (libm_finite_for rt 0.8 ->
   calculate_power (num := float_num rt) 230 5 0.8 0 =
   Raise ZeroDivisionError).
Proof.
  unfold raises, libm_finite_for, calculate_power, calculate_power_locals.
  cbn. split.
  - libm_cases; now eexists.
  - intros (H1 & H2 & H3 & H4). now libm_finite.
Qed.

(** Here [V_rms ** 2] is 1e-200, neither 0.0 nor out of range, and the
    frequency 1e-200 is not 0: it is their product with [2 * pi] that
    underflows to 0.0. *)
Lemma binary64_product_underflow_run :
  raises (calculate_power (num := float_num rt) 1e-100 1 0.5 1e-200) /\
  (libm_finite_for rt 0.5 ->
   calculate_power (num := float_num rt) 1e-100 1 0.5 1e-200 =
   Raise ZeroDivisionError).
Proof.
  unfold raises, libm_finite_for, calculate_power, calculate_power_locals.
  cbn. split.
  - libm_cases; now eexists.
  - intros (H1 & H2 & H3 & H4). now libm_finite.
Qed.

End Binary64Runs.

(** C10 fails in binary64.  The power factor 0.5 is in range and the
    frequency 50 is not 0; the active power [1e-200 * 1e300 * 0.5] is
    positive, yet [1e-200 * 1e-200] is 0.0, so the divisor of line 23 is
    0.0: the call raises for every C library, and raises
    [ZeroDivisionError] whenever the four [libm] calls return finite
    values. *)
Lemma binary64_zero_divisor_counterexample :
  (PrimFloat.ltb 0 0.5 = true /\ PrimFloat.leb 0.5 1 = true) /\
  PrimFloat.eqb 50 0 = false /\
  PrimFloat.ltb 0 (1e-200 * 1e300 * 0.5) = true /\
  PrimFloat.eqb (2 * 3.141592653589793 * 50 * (1e-200 * 1e-200)) 0 = true /\
  forall rt : Binary64.CRuntime,
    raises (calculate_power (num := Binary64.float_num rt)
              1e-200%float 1e300%float 0.5%float 50%float) /\
    (Binary64.libm_finite_for rt 0.5 ->
     calculate_power (num := Binary64.float_num rt)
       1e-200%float 1e300%float 0.5%float 50%float =
     Raise ZeroDivisionError).
Proof.
  split; [split; reflexivity |].
  repeat (split; [reflexivity |]).
  intros rt. apply binary64_underflow_run.
Qed.

(** * Beyond the claims *)

(** ** More on [calculate_power] *)

Lemma calculate_power_locals_ok_range (V_rms I_rms pf freq : R)
  (l : PowerLocals R) :
  calculate_power_locals V_rms I_rms pf freq = Ok l -> 0 < pf <= 1.
Proof.
  intros Hl.
  destruct (Rle_dec pf 0) as [H0 | H0].
  { assert (Hg : Rleb pf 0 || Rltb 1 pf = true) by (apply guard_iff; tauto).
    unfold calculate_power_locals in Hl. cbn in Hl. rewrite Hg in Hl.
    discriminate. }
  destruct (Rlt_dec 1 pf) as [H1 | H1].
  { assert (Hg : Rleb pf 0 || Rltb 1 pf = true) by (apply guard_iff; tauto).
    unfold calculate_power_locals in Hl. cbn in Hl. rewrite Hg in Hl.
    discriminate. }
  lra.
Qed.

Lemma locals_of_cases (V_rms I_rms pf freq : R) (l : PowerLocals R) :
  calculate_power_locals V_rms I_rms pf freq = Ok l ->
  0 < pf <= 1 /\ exists c, l = locals_of V_rms I_rms pf c.
Proof.
  intros Hl.
  pose proof (calculate_power_locals_ok_range _ _ _ _ _ Hl) as Hpf.
  split; [exact Hpf |].
  destruct (calculate_power_locals_inv _ _ _ _ _ Hpf Hl)
    as [(_ & _ & _ & ->) | (_ & ->)]; eexists; reflexivity.
Qed.

(** The power triangle: whenever the function gets past its guard, the
    active and reactive power it computed are the legs of a right
    triangle whose hypotenuse is the apparent power. *)
Theorem power_triangle (V_rms I_rms pf freq : R) (l : PowerLocals R) :
  calculate_power_locals V_rms I_rms pf freq = Ok l ->
  loc_P l * loc_P l + loc_Q l * loc_Q l = loc_S l * loc_S l.
Proof.
  intros Hl. destruct (locals_of_cases _ _ _ _ _ Hl) as (Hpf & c & ->).
  cbn [locals_of loc_S loc_P loc_Q].
  assert (Hs : sqrt (1 - pf * pf) * sqrt (1 - pf * pf) = 1 - pf * pf)
    by (apply sqrt_sqrt; nra).
  set (s := sqrt (1 - pf * pf)) in *.
  replace (V_rms * I_rms * s * (V_rms * I_rms * s))
    with (V_rms * I_rms * (V_rms * I_rms) * (s * s)) by ring.
  rewrite Hs. ring.
Qed.

Lemma power_triangle_witness :
  calculate_power_locals 230 5 (8 / 10) 50 = Ok scenario_locals /\
  loc_P scenario_locals * loc_P scenario_locals
  + loc_Q scenario_locals * loc_Q scenario_locals
  = loc_S scenario_locals * loc_S scenario_locals.
Proof.
  split; [exact scenario_locals_eq |].
  exact (power_triangle 230 5 (8 / 10) 50 _ scenario_locals_eq).
Defined.

Lemma acos_lt_PI2 (x : R) : 0 < x -> acos x < PI / 2.
Proof.
  intros Hx. rewrite acos_atan by exact Hx. apply atan_bound.
Qed.

Lemma acos_eq_0 (x : R) : -1 <= x <= 1 -> (acos x = 0 <-> x = 1).
Proof.
  intros Hx. split.
  - intros H. rewrite <- (cos_acos x Hx), H. apply cos_0.
  - intros ->. apply acos_1.
Qed.

Lemma round_half_even_le (x : R) (k : Z) :
  x <= IZR k -> (round_half_even x <= k)%Z.
Proof.
  intros Hx. pose proof (round_half_even_error x) as He.
  apply Z.lt_succ_r, lt_IZR. rewrite succ_IZR. lra.
Qed.

(** In exact arithmetic, the phase angle left in the locals is in
    [0, 90) degrees, and is 0 exactly at unity power factor; the rounded
    angle of the record is in [0, 90]. *)
Theorem phase_angle_range (V_rms I_rms pf freq : R) (r : PowerResult R) :
  calculate_power V_rms I_rms pf freq = Ok r ->
  exists l,
    calculate_power_locals V_rms I_rms pf freq = Ok l /\
    0 <= loc_theta_deg l < 90 /\
    (loc_theta_deg l = 0 <-> pf = 1) /\
    0 <= res_theta_deg r <= 90.
Proof.
  intros Hr.
  destruct (calculate_power_returns_inv _ _ _ _ _ Hr) as (l & Hl & ->).
  exists l. split; [exact Hl |].
  destruct (locals_of_cases _ _ _ _ _ Hl) as (Hpf & c & ->).
  cbn [power_result res_theta_deg locals_of loc_theta_deg round_nd real_num].
  pose proof PI_RGT_0 as Hpi.
  pose proof (acos_bound pf) as [Ha0 _].
  pose proof (acos_lt_PI2 pf ltac:(lra)) as Ha1.
  assert (Hdeg : acos pf * (180 / PI) = acos pf / (PI / 2) * 90)
    by (field; lra).
  assert (Hq0 : 0 <= acos pf / (PI / 2)).
  { apply Rmult_le_pos; [exact Ha0 |]. left. apply Rinv_0_lt_compat. lra. }
  assert (Hq1 : acos pf / (PI / 2) < 1).
  { apply Rmult_lt_reg_r with (r := PI / 2); [lra |].
    replace (acos pf / (PI / 2) * (PI / 2)) with (acos pf) by (field; lra).
    lra. }
  assert (Hrange : 0 <= acos pf * (180 / PI) < 90) by (rewrite Hdeg; lra).
  split; [exact Hrange |]. split.
  - rewrite <- (acos_eq_0 pf) by lra. split.
    + intros H0. rewrite Hdeg in H0.
      assert (Hz : acos pf / (PI / 2) = 0) by lra.
      apply Rmult_integral in Hz as [Hz | Hz]; [exact Hz |].
      exfalso. assert (0 < / (PI / 2)) by (apply Rinv_0_lt_compat; lra). lra.
    + intros ->. lra.
  - split; [apply real_round_nonneg; lra |].
    unfold real_round. set (x := acos pf * (180 / PI)) in *.
    replace (10 ^ 2) with 100 by (simpl; lra).
    assert (Hk : (round_half_even (x * 100) <= 9000)%Z).
    { apply round_half_even_le. lra. }
    apply IZR_le in Hk. lra.
Qed.

Lemma phase_angle_range_witness :
  calculate_power 230 5 (8 / 10) 50 =
  Ok (power_result (8 / 10) scenario_locals) /\
  exists l,
    calculate_power_locals 230 5 (8 / 10) 50 = Ok l /\
    0 <= loc_theta_deg l < 90 /\
    (loc_theta_deg l = 0 <-> 8 / 10 = 1) /\
    0 <= res_theta_deg (power_result (8 / 10) scenario_locals) <= 90.
Proof.
  split; [exact scenario_returns |].
  exact (phase_angle_range 230 5 (8 / 10) 50 _ scenario_returns).
Defined.






(** ** More on [plot_waveforms] *)

(** With a frequency that is not 0, a power factor that is a cosine and
    a current that is not 0, the function draws [figure_of]. *)
Lemma plot_waveforms_figure (V_rms I_rms pf freq cycles : R) :
  freq <> 0 -> -1 <= pf <= 1 -> I_rms <> 0 ->
  plot_waveforms V_rms I_rms pf freq cycles =
  Ok (figure_of V_rms I_rms pf freq cycles).
Proof.
  intros Hf Hpf HI. unfold plot_waveforms.
  cbn [truediv math_acos math_cos math_sin real_num].
  rewrite real_truediv_ok by exact Hf. cbn [bind].
  rewrite linspace0_1000_ok. cbn [bind].
  rewrite real_acos_ok by exact Hpf. cbn [bind].
  rewrite real_truediv_ok by exact HI. reflexivity.
Qed.

Lemma plot_waveforms_freq_0 (V_rms I_rms pf cycles : R) :
  plot_waveforms V_rms I_rms pf 0 cycles = Raise ZeroDivisionError.
Proof.
  unfold plot_waveforms. cbn [truediv real_num].
  now rewrite real_truediv_zero.
Qed.

Lemma real_acos_domain (x : R) :
  ~ (-1 <= x <= 1) -> real_acos x = Raise ValueError.
Proof.
  intros H. unfold real_acos.
  destruct (Rle_dec (-1) x); [| reflexivity].
  destruct (Rle_dec x 1); [exfalso; apply H; split; assumption | reflexivity].
Qed.

Lemma plot_waveforms_bad_pf (V_rms I_rms pf freq cycles : R) :
  freq <> 0 -> ~ (-1 <= pf <= 1) ->
  plot_waveforms V_rms I_rms pf freq cycles = Raise ValueError.
Proof.
  intros Hf Hpf. unfold plot_waveforms.
  cbn [truediv math_acos real_num].
  rewrite real_truediv_ok by exact Hf. cbn [bind].
  rewrite linspace0_1000_ok. cbn [bind].
  now rewrite real_acos_domain.
Qed.

Lemma plot_waveforms_current_0 (V_rms pf freq cycles : R) :
  freq <> 0 -> -1 <= pf <= 1 ->
  plot_waveforms V_rms 0 pf freq cycles = Raise ZeroDivisionError.
Proof.
  intros Hf Hpf. unfold plot_waveforms.
  cbn [truediv math_acos real_num].
  rewrite real_truediv_ok by exact Hf. cbn [bind].
  rewrite linspace0_1000_ok. cbn [bind].
  rewrite real_acos_ok by exact Hpf. cbn [bind].
  now rewrite real_truediv_zero.
Qed.

Lemma plot_waveforms_inv (V_rms I_rms pf freq cycles : R) (fig : Figure R) :
  plot_waveforms V_rms I_rms pf freq cycles = Ok fig ->
  (freq <> 0 /\ -1 <= pf <= 1 /\ I_rms <> 0) /\
  fig = figure_of V_rms I_rms pf freq cycles.
Proof.
  intros Hfig.
  destruct (Req_dec_T freq 0) as [-> | Hf].
  { rewrite plot_waveforms_freq_0 in Hfig. discriminate. }
  destruct (Rle_dec (-1) pf) as [H1 | H1];
    [| rewrite plot_waveforms_bad_pf in Hfig by (assumption || tauto);
       discriminate].
  destruct (Rle_dec pf 1) as [H2 | H2];
    [| rewrite plot_waveforms_bad_pf in Hfig by (assumption || tauto);
       discriminate].
  destruct (Req_dec_T I_rms 0) as [-> | HI].
  { rewrite plot_waveforms_current_0 in Hfig by (assumption || tauto).
    discriminate. }
  split; [tauto |].
  rewrite plot_waveforms_figure in Hfig by (assumption || tauto). congruence.
Qed.

(** [plot_waveforms] has no guard of its own, and its failures come in
    a fixed order: a frequency of 0 raises [ZeroDivisionError] at
    [cycles / freq] whatever the other arguments, an invalid power
    factor included; with any other frequency, a power factor below -1
    or above 1 raises [ValueError] from [math.acos], before the current
    is looked at. *)
Theorem plot_waveforms_outcome (V_rms I_rms pf freq cycles : R) :
  (freq = 0 ->
   plot_waveforms V_rms I_rms pf freq cycles = Raise ZeroDivisionError) /\
  (freq <> 0 -> pf < -1 \/ 1 < pf ->
   plot_waveforms V_rms I_rms pf freq cycles = Raise ValueError).
Proof.
  split; [intros ->; apply plot_waveforms_freq_0 |].
  intros Hf Hpf. apply plot_waveforms_bad_pf; [exact Hf | lra].
Qed.

Lemma plot_scenario :
  plot_waveforms 230 5 (8 / 10) 50 3 = Ok (figure_of 230 5 (8 / 10) 50 3).
Proof.
  apply plot_waveforms_figure; lra.
Qed.

Lemma nth_map_default {A B : Type} (f : A -> B) (l : list A) (d : A)
  (d' : B) (k : nat) :
  (k < length l)%nat -> nth k (map f l) d' = f (nth k l d).
Proof.
  intros Hk. rewrite (nth_indep _ d' (f d)) by (rewrite length_map; exact Hk).
  apply map_nth.
Qed.

Lemma time_base_length (d : R) : length (time_base d) = 1000%nat.
Proof.
  unfold time_base. rewrite length_app, length_map, length_seq. reflexivity.
Qed.

(** The first subplot, in exact arithmetic: each of the three series
    has 1000 samples; the time axis runs from 0 to [cycles / freq]
    seconds, shown in milliseconds, in 999 equal steps; and the [k]-th
    voltage and current samples are the sinusoids of the script at the
    [k]-th time. *)
Theorem waveform_samples (V_rms I_rms pf freq cycles : R) (fig : Figure R) :
  plot_waveforms V_rms I_rms pf freq cycles = Ok fig ->
  (length (fig_t_ms fig) = 1000 /\ length (fig_v fig) = 1000 /\
   length (fig_i fig) = 1000)%nat /\
  nth 0 (fig_t_ms fig) 0 = 0 /\
  last (fig_t_ms fig) 0 = cycles / freq * 1000 /\
  (forall k, (k < 999)%nat ->
     nth k (fig_t_ms fig) 0 = INR k * (cycles / freq / 999) * 1000) /\
  (forall k, (k < 1000)%nat ->
     nth k (fig_v fig) 0 =
     V_rms * sqrt 2 * sin (2 * PI * freq * (nth k (fig_t_ms fig) 0 / 1000)) /\
     nth k (fig_i fig) 0 =
     I_rms * sqrt 2 *
     sin (2 * PI * freq * (nth k (fig_t_ms fig) 0 / 1000) - acos pf)).
Proof.
  intros Hfig. destruct (plot_waveforms_inv _ _ _ _ _ _ Hfig) as (_ & ->).
  unfold figure_of. cbn [fig_t_ms fig_v fig_i].
  set (t := time_base (cycles / freq)).
  assert (Hlen : length t = 1000%nat) by apply time_base_length.
  assert (Ht : forall k, (k < 999)%nat ->
            nth k t 0 = INR k * (cycles / freq / 999)).
  { intros k Hk. unfold t, time_base.
    rewrite app_nth1 by (rewrite length_map, length_seq; exact Hk).
    rewrite (nth_map_default _ _ 0%nat) by (rewrite length_seq; exact Hk).
    rewrite seq_nth by exact Hk.
    replace (INR (1000 - 1)) with 999
      by (rewrite minus_INR, !INR_IZR_INZ by lia; simpl; lra).
    cbn [Nat.add]. ring. }
  assert (Hms : forall k, (k < 1000)%nat ->
            nth k (map (fun tk => tk * 1000) t) 0 = nth k t 0 * 1000).
  { intros k Hk. apply (nth_map_default (fun tk => tk * 1000)). lia. }
  split; [rewrite !length_map; auto |].
  split; [rewrite Hms, Ht by lia; simpl; ring |].
  split.
  { unfold t, time_base. rewrite map_app. cbn [map]. apply last_last. }
  split.
  { intros k Hk. rewrite Hms, Ht by lia. reflexivity. }
  intros k Hk. rewrite Hms by exact Hk.
  replace (nth k t 0 * 1000 / 1000) with (nth k t 0) by (field; lra).
  split.
  - apply (nth_map_default
             (fun tk => V_rms * sqrt 2 * sin (2 * PI * freq * tk))). lia.
  - apply (nth_map_default
             (fun tk => I_rms * sqrt 2 * sin (2 * PI * freq * tk - acos pf))).
    lia.
Qed.

Lemma waveform_samples_witness :
  plot_waveforms 230 5 (8 / 10) 50 3 = Ok (figure_of 230 5 (8 / 10) 50 3) /\
  (length (fig_t_ms (figure_of 230 5 (8 / 10) 50 3)) = 1000)%nat /\
  last (fig_t_ms (figure_of 230 5 (8 / 10) 50 3)) 0 = 3 / 50 * 1000.
Proof.
  split; [exact plot_scenario |].
  pose proof (waveform_samples 230 5 (8 / 10) 50 3 _ plot_scenario)
    as ((Hlen & _) & _ & Hlast & _).
  split; [exact Hlen | exact Hlast].
Defined.



(** The phasor diagram, in exact arithmetic.  The scale factor cancels
    the current: the red arrow ends at
    [(0.7 V pf, - 0.7 V sqrt (1 - pf^2))], so its length is 70% of the
    voltage arrow for every current that is not 0, it points below the
    axis for a positive voltage (the current lags), and it lies within
    the axis limits [1.3 |V|]. *)
Theorem phasor_geometry (V_rms I_rms pf freq cycles : R) (fig : Figure R) :
  plot_waveforms V_rms I_rms pf freq cycles = Ok fig ->
  fig_v_len fig = V_rms /\
  fig_curr_x fig = 7 / 10 * V_rms * pf /\
  fig_curr_y fig = - (7 / 10 * V_rms * sqrt (1 - pf * pf)) /\
  fig_curr_x fig * fig_curr_x fig + fig_curr_y fig * fig_curr_y fig =
  (7 / 10 * V_rms) * (7 / 10 * V_rms) /\
  fig_limit fig = 13 / 10 * V_rms /\
  Rabs (fig_curr_x fig) <= Rabs (fig_limit fig) /\
  Rabs (fig_curr_y fig) <= Rabs (fig_limit fig).
Proof.
  intros Hfig.
  destruct (plot_waveforms_inv _ _ _ _ _ _ Hfig) as ((_ & Hpf & HI) & ->).
  unfold figure_of. cbn [fig_v_len fig_curr_x fig_curr_y fig_limit].
  rewrite cos_acos by exact Hpf.
  rewrite sin_neg, sin_acos by exact Hpf. unfold Rsqr.
  assert (Hs0 : 0 <= sqrt (1 - pf * pf)) by apply sqrt_pos.
  assert (Hss : sqrt (1 - pf * pf) * sqrt (1 - pf * pf) = 1 - pf * pf)
    by (apply sqrt_sqrt; nra).
  set (s := sqrt (1 - pf * pf)) in *.
  assert (Hx : I_rms * pf * (V_rms / I_rms * (7 / 10)) = 7 / 10 * V_rms * pf)
    by (field; exact HI).
  assert (Hy : I_rms * - s * (V_rms / I_rms * (7 / 10)) = - (7 / 10 * V_rms * s))
    by (field; exact HI).
  rewrite Hx, Hy.
  assert (Hs1 : s <= 1) by nra.
  assert (Hlim : Rabs (V_rms * (13 / 10)) = 13 / 10 * Rabs V_rms).
  { rewrite Rabs_mult, (Rabs_pos_eq (13 / 10)) by lra. ring. }
  pose proof (Rabs_pos V_rms) as HV.
  repeat split; try reflexivity.
  - replace (7 / 10 * V_rms * pf * (7 / 10 * V_rms * pf) +
             - (7 / 10 * V_rms * s) * - (7 / 10 * V_rms * s))
      with (7 / 10 * V_rms * (7 / 10 * V_rms) * (pf * pf + s * s)) by ring.
    rewrite Hss. ring.
  - ring.
  - rewrite Hlim, !Rabs_mult, (Rabs_pos_eq (7 / 10)) by lra.
    assert (Rabs pf <= 1) by (apply Rabs_le; lra). nra.
  - rewrite Hlim, Rabs_Ropp, !Rabs_mult, (Rabs_pos_eq (7 / 10)) by lra.
    rewrite (Rabs_pos_eq s) by exact Hs0. nra.
Qed.

Lemma phasor_geometry_witness :
  plot_waveforms 230 5 (8 / 10) 50 3 = Ok (figure_of 230 5 (8 / 10) 50 3) /\
  fig_curr_x (figure_of 230 5 (8 / 10) 50 3) = 7 / 10 * 230 * (8 / 10) /\
  fig_curr_y (figure_of 230 5 (8 / 10) 50 3) =
  - (7 / 10 * 230 * sqrt (1 - 8 / 10 * (8 / 10))).
Proof.
  split; [exact plot_scenario |].
  pose proof (phasor_geometry 230 5 (8 / 10) 50 3 _ plot_scenario)
    as (_ & Hx & Hy & _).
  split; [exact Hx | exact Hy].
Defined.

(** ** The main program *)

Section ScriptRuns.

Context {F : Type} {num : PyNum F}.

Variable float_of_str : string -> option F.

Lemma to_float_or_50_read (line : string) (f : F) :
  frequency_read float_of_str line f ->
  to_float_or_50 float_of_str line = sret f.
Proof.
  unfold frequency_read, to_float_or_50, to_float.
  destruct line; [now intros -> | now intros ->].
Qed.

(** With four readable lines the script writes its prompts and then
    [report]; anything typed after the fourth line is left unread. *)
Lemma main_parsed (line_V line_I line_pf line_f : string)
  (rest : list string) (V I pf f : F) :
  float_of_str line_V = Some V ->
  float_of_str line_I = Some I ->
  float_of_str line_pf = Some pf ->
  frequency_read float_of_str line_f f ->
  main float_of_str (line_V :: line_I :: line_pf :: line_f :: rest) =
  asked 4 ++ report V I pf f.
Proof.
  intros HV HI Hpf Hf. apply to_float_or_50_read in Hf.
  unfold main, main_try, report, sbind, input, to_float.
  cbn [stdin stdout]. rewrite HV. cbn [sret stdin stdout].
  rewrite HI. cbn [sret stdin stdout].
  rewrite Hpf. cbn [sret stdin stdout].
  rewrite Hf. cbn [sret stdin stdout]. unfold call.
  destruct (calculate_power V I pf f) as [r | e]; [| now destruct e].
  unfold print. cbn [stdin stdout fst snd].
  destruct (ltb lit_0 (res_required_C r));
    cbn [stdin stdout];
    destruct (plot_waveforms V I pf f (of_nat 3)) as [fig | e];
    try reflexivity; now destruct e.
Qed.

Lemma bad_line_cases (line_V line_I line_pf line_f : string)
  (rest : list string) (V I pf : F) :
  (float_of_str line_V = None ->
   main float_of_str (line_V :: rest) = asked 1 ++ [InvalidInput]) /\
  (float_of_str line_V = Some V -> float_of_str line_I = None ->
   main float_of_str (line_V :: line_I :: rest) =
   asked 2 ++ [InvalidInput]) /\
  (float_of_str line_V = Some V -> float_of_str line_I = Some I ->
   float_of_str line_pf = None ->
   main float_of_str (line_V :: line_I :: line_pf :: rest) =
   asked 3 ++ [InvalidInput]) /\
  (float_of_str line_V = Some V -> float_of_str line_I = Some I ->
   float_of_str line_pf = Some pf ->
   line_f <> EmptyString -> float_of_str line_f = None ->
   main float_of_str (line_V :: line_I :: line_pf :: line_f :: rest) =
   asked 4 ++ [InvalidInput]).
Proof.
  unfold main, main_try, sbind, input, to_float.
  repeat split.
  - intros HV. cbn [stdin stdout]. now rewrite HV.
  - intros HV HI. cbn [stdin stdout]. rewrite HV. cbn [sret stdin stdout].
    now rewrite HI.
  - intros HV HI Hpf. cbn [stdin stdout]. rewrite HV. cbn [sret stdin stdout].
    rewrite HI. cbn [sret stdin stdout]. now rewrite Hpf.
  - intros HV HI Hpf Hne Hf. cbn [stdin stdout].
    rewrite HV. cbn [sret stdin stdout].
    rewrite HI. cbn [sret stdin stdout].
    rewrite Hpf. cbn [sret stdin stdout].
    unfold to_float_or_50, to_float.
    destruct line_f; [contradiction |]. now rewrite Hf.
Qed.

Lemma end_of_input_cases (line_V line_I line_pf : string) (V I pf : F) :
  main float_of_str [] = asked 1 ++ [Unexpected EOFError] /\
  (float_of_str line_V = Some V ->
   main float_of_str [line_V] = asked 2 ++ [Unexpected EOFError]) /\
  (float_of_str line_V = Some V -> float_of_str line_I = Some I ->
   main float_of_str [line_V; line_I] = asked 3 ++ [Unexpected EOFError]) /\
  (float_of_str line_V = Some V -> float_of_str line_I = Some I ->
   float_of_str line_pf = Some pf ->
   main float_of_str [line_V; line_I; line_pf] =
   asked 4 ++ [Unexpected EOFError]).
Proof.
  unfold main, main_try, sbind, input, to_float.
  repeat split.
  - intros HV. cbn [stdin stdout]. now rewrite HV.
  - intros HV HI. cbn [stdin stdout]. rewrite HV. cbn [sret stdin stdout].
    now rewrite HI.
  - intros HV HI Hpf. cbn [stdin stdout]. rewrite HV. cbn [sret stdin stdout].
    rewrite HI. cbn [sret stdin stdout]. now rewrite Hpf.
Qed.

(** The first line that [float] rejects ends the run with the
    invalid-input message right after its prompt: nothing is computed,
    and the lines after it are not read.  The frequency line is rejected
    only when it is not empty. *)
Theorem main_stops_at_bad_line (line_V line_I line_pf line_f : string)
  (rest : list string) (V I pf : F) :
  (float_of_str line_V = None ->
   main float_of_str (line_V :: rest) = asked 1 ++ [InvalidInput]) /\
  (float_of_str line_V = Some V -> float_of_str line_I = None ->
   main float_of_str (line_V :: line_I :: rest) =
   asked 2 ++ [InvalidInput]) /\
  (float_of_str line_V = Some V -> float_of_str line_I = Some I ->
   float_of_str line_pf = None ->
   main float_of_str (line_V :: line_I :: line_pf :: rest) =
   asked 3 ++ [InvalidInput]) /\
  (float_of_str line_V = Some V -> float_of_str line_I = Some I ->
   float_of_str line_pf = Some pf ->
   line_f <> EmptyString -> float_of_str line_f = None ->
   main float_of_str (line_V :: line_I :: line_pf :: line_f :: rest) =
   asked 4 ++ [InvalidInput]).
Proof.
  exact (bad_line_cases line_V line_I line_pf line_f rest V I pf).
Qed.

(** When standard input ends before the four lines are there, the
    prompt is still written and the run ends in the handler for
    unexpected errors, not in the one for invalid input. *)
Theorem main_end_of_input (line_V line_I line_pf : string) (V I pf : F) :
  main float_of_str [] = asked 1 ++ [Unexpected EOFError] /\
  (float_of_str line_V = Some V ->
   main float_of_str [line_V] = asked 2 ++ [Unexpected EOFError]) /\
  (float_of_str line_V = Some V -> float_of_str line_I = Some I ->
   main float_of_str [line_V; line_I] = asked 3 ++ [Unexpected EOFError]) /\
  (float_of_str line_V = Some V -> float_of_str line_I = Some I ->
   float_of_str line_pf = Some pf ->
   main float_of_str [line_V; line_I; line_pf] =
   asked 4 ++ [Unexpected EOFError]).
Proof.
  exact (end_of_input_cases line_V line_I line_pf V I pf).
Qed.

(** An empty frequency line stands for 50 Hz: the run is the one of the
    four parsed values with [f = 50]. *)
Theorem main_default_frequency (line_V line_I line_pf : string)
  (rest : list string) (V I pf : F) :
  float_of_str line_V = Some V ->
  float_of_str line_I = Some I ->
  float_of_str line_pf = Some pf ->
  main float_of_str (line_V :: line_I :: line_pf :: EmptyString :: rest) =
  asked 4 ++ report V I pf (of_nat 50).
Proof.
  intros HV HI Hpf. now apply main_parsed.
Qed.

(** Every run is one of three kinds: it stops at a line [float] rejects,
    it stops at the end of input, or it reads four values and writes
    [report]. *)
Lemma main_cases (lines : list string) :
  (exists n, main float_of_str lines = asked n ++ [InvalidInput]) \/
  (exists n, main float_of_str lines = asked n ++ [Unexpected EOFError]) \/
  (exists line_V line_I line_pf line_f rest V I pf f,
     lines = line_V :: line_I :: line_pf :: line_f :: rest /\
     float_of_str line_V = Some V /\
     float_of_str line_I = Some I /\
     float_of_str line_pf = Some pf /\
     frequency_read float_of_str line_f f /\
     main float_of_str lines = asked 4 ++ report V I pf f).
Proof.
  destruct lines as [| line_V lines].
  { right; left. exists 1%nat.
    apply (end_of_input_cases EmptyString EmptyString EmptyString
             lit_0 lit_0 lit_0). }
  destruct (float_of_str line_V) as [V |] eqn:HV.
  2:{ left. exists 1%nat.
      now apply (bad_line_cases line_V EmptyString EmptyString
                   EmptyString lines lit_0 lit_0 lit_0). }
  destruct lines as [| line_I lines].
  { right; left. exists 2%nat.
    now apply (end_of_input_cases line_V EmptyString EmptyString V lit_0 lit_0). }
  destruct (float_of_str line_I) as [I |] eqn:HI.
  2:{ left. exists 2%nat.
      now apply (bad_line_cases line_V line_I EmptyString
                   EmptyString lines V lit_0 lit_0). }
  destruct lines as [| line_pf lines].
  { right; left. exists 3%nat.
    now apply (end_of_input_cases line_V line_I EmptyString V I lit_0). }
  destruct (float_of_str line_pf) as [pf |] eqn:Hpf.
  2:{ left. exists 3%nat.
      now apply (bad_line_cases line_V line_I line_pf
                   EmptyString lines V I lit_0). }
  destruct lines as [| line_f rest].
  { right; left. exists 4%nat.
    now apply (end_of_input_cases line_V line_I line_pf V I pf). }
  assert (Hread : forall f, frequency_read float_of_str line_f f ->
    exists line_V0 line_I0 line_pf0 line_f0 rest0 V0 I0 pf0 f0,
      line_V :: line_I :: line_pf :: line_f :: rest =
      line_V0 :: line_I0 :: line_pf0 :: line_f0 :: rest0 /\
      float_of_str line_V0 = Some V0 /\ float_of_str line_I0 = Some I0 /\
      float_of_str line_pf0 = Some pf0 /\
      frequency_read float_of_str line_f0 f0 /\
      main float_of_str (line_V :: line_I :: line_pf :: line_f :: rest) =
      asked 4 ++ report V0 I0 pf0 f0).
  { intros f Hf. exists line_V, line_I, line_pf, line_f, rest, V, I, pf, f.
    repeat split; try assumption. now apply main_parsed. }
  destruct line_f as [| a line_f'] eqn:Hline.
  { right; right. now apply (Hread (of_nat 50)). }
  rewrite <- Hline in *.
  destruct (float_of_str line_f) as [f |] eqn:Hf.
  - right; right. apply (Hread f). rewrite Hline. cbn. now rewrite <- Hline.
  - left. exists 4%nat.
    apply (bad_line_cases line_V line_I line_pf line_f rest V I pf);
      try assumption.
    rewrite Hline. discriminate.
Qed.

End ScriptRuns.

Lemma In_asked {F : Type} (o : Output F) (n : nat) :
  In o (asked n) -> o = Banner \/ exists q, o = Prompt q.
Proof.
  unfold asked.
  destruct n as [| [| [| [| n]]]]; cbn; intros H;
    repeat (destruct H as [<- | H];
            [first [now left | right; eexists; reflexivity] |]);
    rewrite ?firstn_nil in H; contradiction.
Qed.

(** Membership in the banner and prompts, then in an explicit list. *)
Ltac in_output H :=
  apply in_app_or in H as [H | H];
  [apply In_asked in H as [H | [? H]]; try discriminate H
  | cbn [In] in H;
    repeat match type of H with
           | _ \/ _ => destruct H as [H | H]
           | False => contradiction
           end; try discriminate H].

(** ** The main program on the reals *)

Section ScriptOnReals.

Variable float_of_str : string -> option R.

Lemma INR_3 : INR 3 = 3.
Proof.
  simpl. lra.
Qed.

(** In range, the plot that follows the results can only fail by
    dividing by zero. *)
Lemma plot_after_results (V I pf f : R) :
  0 < pf <= 1 ->
  (f <> 0 /\ I <> 0 /\
   plot_waveforms V I pf f (INR 3) = Ok (figure_of V I pf f (INR 3))) \/
  ((f = 0 \/ I = 0) /\
   plot_waveforms V I pf f (INR 3) = Raise ZeroDivisionError).
Proof.
  intros Hpf.
  destruct (Req_dec_T f 0) as [-> | Hf].
  { right. split; [now left | apply plot_waveforms_freq_0]. }
  destruct (Req_dec_T I 0) as [-> | HI].
  { right. split; [now right |]. apply plot_waveforms_current_0; lra. }
  left. repeat split; try assumption. apply plot_waveforms_figure; lra.
Qed.

(** What [report] is on the reals. *)
Lemma report_cases (V I pf f : R) :
  ((pf <= 0 \/ 1 < pf) /\ report V I pf f = [InvalidInput]) \/
  (0 < pf <= 1 /\ pf < 95 / 100 /\ 0 < V * I * pf /\ f = 0 /\
   report V I pf f = [Unexpected (Raised ZeroDivisionError)]) \/
  (0 < pf <= 1 /\
   exists r, calculate_power V I pf f = Ok r /\
     ((f <> 0 /\ I <> 0 /\
       report V I pf f =
       [ResultsBlock r;
        if Rltb 0 (res_required_C r)
        then Suggestion (res_required_C r) else Optimal;
        ResultsEnd; ShowPlot (figure_of V I pf f (INR 3))]) \/
      ((f = 0 \/ I = 0) /\
       report V I pf f =
       [ResultsBlock r;
        if Rltb 0 (res_required_C r)
        then Suggestion (res_required_C r) else Optimal;
        ResultsEnd; Unexpected (Raised ZeroDivisionError)]))).
Proof.
  unfold report.
  destruct (Rle_dec pf 0) as [H0 | H0].
  { left. split; [now left |].
    now rewrite calculate_power_out_of_range by tauto. }
  destruct (Rlt_dec 1 pf) as [H1 | H1].
  { left. split; [now right |].
    now rewrite calculate_power_out_of_range by tauto. }
  assert (Hpf : 0 < pf <= 1) by lra.
  destruct (calculate_power_outcome V I pf f Hpf)
    as [(l & _ & Hr) | (Hr & Hlt & HP & Hf)].
  - right; right. split; [exact Hpf |].
    exists (power_result pf l). split; [exact Hr |]. rewrite Hr.
    cbn [of_nat ltb lit_0 real_num].
    destruct (plot_after_results V I pf f Hpf)
      as [(Hf & HI & Hplot) | (Hz & Hplot)]; rewrite Hplot.
    + left. repeat split; assumption || reflexivity.
    + right. split; [exact Hz | reflexivity].
  - right; left. rewrite Hr. repeat split; assumption || lra.
Qed.

(** A power factor outside (0, 1] is reported as invalid input right
    after the four prompts: no result is written and no plot is drawn. *)
Theorem main_rejects_power_factor (line_V line_I line_pf line_f : string)
  (rest : list string) (V I pf f : R) :
  float_of_str line_V = Some V ->
  float_of_str line_I = Some I ->
  float_of_str line_pf = Some pf ->
  frequency_read float_of_str line_f f ->
  pf <= 0 \/ 1 < pf ->
  main float_of_str (line_V :: line_I :: line_pf :: line_f :: rest) =
  asked 4 ++ [InvalidInput].
Proof.
  intros HV HI Hpf Hf Hout.
  rewrite (main_parsed float_of_str _ _ _ _ rest V I pf f) by assumption.
  unfold report. now rewrite calculate_power_out_of_range.
Qed.


(** The capacitor suggestion is written only for a load below the
    target: the value it shows is a positive [required_C] returned for a
    power factor under 0.95. *)
Theorem main_suggestion_below_target (lines : list string) (c : R) :
  In (Suggestion c) (main float_of_str lines) ->
  0 < c /\
  exists line_V line_I line_pf line_f rest V I pf f r,
    lines = line_V :: line_I :: line_pf :: line_f :: rest /\
    float_of_str line_V = Some V /\
    float_of_str line_I = Some I /\
    float_of_str line_pf = Some pf /\
    frequency_read float_of_str line_f f /\
    calculate_power V I pf f = Ok r /\
    c = res_required_C r /\ 0 < pf < 95 / 100.
Proof.
  intros Hs.
  destruct (main_cases float_of_str lines)
    as [[n Hm] | [[n Hm] | (lV & lI & lpf & lf & rest & V & I & pf & f &
                            Hl & HV & HI & Hpf & Hf & Hm)]];
    rewrite Hm in Hs.
  - in_output Hs.
  - in_output Hs.
  - destruct (report_cases V I pf f)
      as [(_ & Hrep) | [(_ & _ & _ & _ & Hrep) | (Hrange & r & Hr & Hrep)]].
    + rewrite Hrep in Hs. in_output Hs.
    + rewrite Hrep in Hs. in_output Hs.
    + assert (Hc : Rltb 0 (res_required_C r) = true /\ c = res_required_C r).
      { destruct Hrep as [(_ & _ & Hrep) | (_ & Hrep)];
          rewrite Hrep in Hs;
          destruct (Rltb 0 (res_required_C r)); in_output Hs;
          injection Hs as <-; auto. }
      destruct Hc as [Hpos ->]. apply Rltb_true in Hpos.
      split; [exact Hpos |].
      exists lV, lI, lpf, lf, rest, V, I, pf, f, r.
      repeat (split; [assumption |]). split; [reflexivity |].
      split; [lra |].
      destruct (calculate_power_returns_inv _ _ _ _ _ Hr) as (l & Hloc & ->).
      destruct (calculate_power_locals_inv _ _ _ _ _ Hrange Hloc)
        as [(Hlt & _) | (_ & ->)]; [exact Hlt |].
      exfalso. revert Hpos.
      cbn [power_result res_required_C locals_of loc_c_microfarad round_nd
           real_num].
      rewrite (proj2 (real_round_2_zero 0)) by lra. lra.
Qed.

End ScriptOnReals.

(** ** The main program, whatever the arithmetic *)

Section ScriptTrace.

Context {F : Type} {num : PyNum F}.

Variable float_of_str : string -> option F.

Lemma report_returned (V I pf f : F) (r : PowerResult F) :
  calculate_power V I pf f = Ok r ->
  exists last,
    report V I pf f =
    [ResultsBlock r;
     if ltb lit_0 (res_required_C r)
     then Suggestion (res_required_C r) else Optimal;
     ResultsEnd; last] /\
    (forall fig, last = ShowPlot fig ->
                 plot_waveforms V I pf f (of_nat 3) = Ok fig).
Proof.
  intros Hr. unfold report. rewrite Hr.
  destruct (plot_waveforms V I pf f (of_nat 3)) as [fig | e].
  - exists (ShowPlot fig). split; [reflexivity |].
    intros fig' H. now injection H as <-.
  - destruct e; eexists; (split; [reflexivity | intros fig' H; discriminate H]).
Qed.

(** How the script uses the record: once the four values are read and
    [calculate_power] has returned, it writes the results block, then
    the capacitor suggestion if [required_C > 0] and the "optimal" line
    if not, then the closing rule, and one last thing, which is the plot
    only if [plot_waveforms], called with three cycles, came through its
    computations. *)
Theorem main_results_block (line_V line_I line_pf line_f : string)
  (rest : list string) (V I pf f : F) (r : PowerResult F) :
  float_of_str line_V = Some V ->
  float_of_str line_I = Some I ->
  float_of_str line_pf = Some pf ->
  frequency_read float_of_str line_f f ->
  calculate_power V I pf f = Ok r ->
  exists last,
    main float_of_str (line_V :: line_I :: line_pf :: line_f :: rest) =
    asked 4 ++
    [ResultsBlock r;
     if ltb lit_0 (res_required_C r)
     then Suggestion (res_required_C r) else Optimal;
     ResultsEnd; last] /\
    (forall fig, last = ShowPlot fig ->
                 plot_waveforms V I pf f (of_nat 3) = Ok fig).
Proof.
  intros HV HI Hpf Hf Hr.
  rewrite (main_parsed float_of_str _ _ _ _ rest V I pf f) by assumption.
  destruct (report_returned V I pf f r Hr) as (last & -> & Hlast).
  now exists last.
Qed.

(** The plot is never shown on its own: whenever it is, four values were
    read, [calculate_power] returned a record, the results block, the
    suggestion or "optimal" line and the closing rule were written, and
    the plot comes last. *)
Theorem main_plot_after_results (lines : list string) (fig : Figure F) :
  In (ShowPlot fig) (main float_of_str lines) ->
  exists line_V line_I line_pf line_f rest V I pf f r,
    lines = line_V :: line_I :: line_pf :: line_f :: rest /\
    float_of_str line_V = Some V /\
    float_of_str line_I = Some I /\
    float_of_str line_pf = Some pf /\
    frequency_read float_of_str line_f f /\
    calculate_power V I pf f = Ok r /\
    plot_waveforms V I pf f (of_nat 3) = Ok fig /\
    main float_of_str lines =
    asked 4 ++
    [ResultsBlock r;
     if ltb lit_0 (res_required_C r)
     then Suggestion (res_required_C r) else Optimal;
     ResultsEnd; ShowPlot fig].
Proof.
  intros Hfig.
  destruct (main_cases float_of_str lines)
    as [[n Hm] | [[n Hm] | (lV & lI & lpf & lf & rest & V & I & pf & f &
                            Hl & HV & HI & Hpf & Hf & Hm)]].
  - rewrite Hm in Hfig. in_output Hfig.
  - rewrite Hm in Hfig. in_output Hfig.
  - destruct (calculate_power V I pf f) as [r | e] eqn:Hr.
    + destruct (report_returned V I pf f r Hr) as (last & Hrep & Hlast).
      rewrite Hm, Hrep in Hfig.
      assert (Hl4 : last = ShowPlot fig).
      { destruct (ltb lit_0 (res_required_C r)); in_output Hfig;
          now symmetry. }
      exists lV, lI, lpf, lf, rest, V, I, pf, f, r.
      repeat (split; [assumption || reflexivity |]).
      split; [now apply Hlast |]. rewrite Hm, Hrep, Hl4. reflexivity.
    + rewrite Hm in Hfig. unfold report in Hfig. rewrite Hr in Hfig.
      destruct e; in_output Hfig.
Qed.

End ScriptTrace.

(** ** Two runs of the script, with [sample_float] for [float] *)

Local Open Scope string_scope.
Local Open Scope list_scope.
Local Open Scope R_scope.

Lemma unity_report :
  report 230 5 1 50 =
  [ResultsBlock (power_result 1 (locals_of 230 5 1 0)); Optimal; ResultsEnd;
   ShowPlot (figure_of 230 5 1 50 (INR 3))].
Proof.
  unfold report.
  rewrite calculate_power_unfold, calculate_power_skip by lra. cbn [bind].
  unfold power_result at 2.
  cbn [res_required_C locals_of loc_c_microfarad round_nd ltb lit_0 of_nat
       real_num].
  rewrite (proj2 (real_round_2_zero 0)) by lra.
  rewrite (proj2 (Rltb_false 0 0)) by lra.
  rewrite plot_waveforms_figure by lra. reflexivity.
Qed.

Lemma unity_run :
  main sample_float ["230"; "5"; "1"; "50"] =
  asked 4 ++
  [ResultsBlock (power_result 1 (locals_of 230 5 1 0)); Optimal; ResultsEnd;
   ShowPlot (figure_of 230 5 1 50 (INR 3))].
Proof.
  rewrite (main_parsed sample_float "230" "5" "1" "50" [] 230 5 1 50)
    by reflexivity.
  now rewrite unity_report.
Qed.

Lemma scenario_report :
  report 230 5 (8 / 10) 50 =
  [ResultsBlock (power_result (8 / 10) scenario_locals);
   Suggestion (res_required_C (power_result (8 / 10) scenario_locals));
   ResultsEnd; ShowPlot (figure_of 230 5 (8 / 10) 50 (INR 3))].
Proof.
  unfold report. rewrite scenario_returns.
  cbn [ltb lit_0 of_nat real_num].
  assert (Hpos : Rltb 0 (res_required_C (power_result (8 / 10) scenario_locals))
                 = true).
  { apply Rltb_true. unfold power_result, scenario_locals, locals_of.
    cbn [res_required_C loc_c_microfarad round_nd real_num].
    apply real_round_2_pos. pose proof capacitance_08_bounds. lra. }
  rewrite Hpos, plot_waveforms_figure by lra. reflexivity.
Qed.

Lemma scenario_run :
  main sample_float ["230"; "5"; "0.8"; "50"] =
  asked 4 ++
  [ResultsBlock (power_result (8 / 10) scenario_locals);
   Suggestion (res_required_C (power_result (8 / 10) scenario_locals));
   ResultsEnd; ShowPlot (figure_of 230 5 (8 / 10) 50 (INR 3))].
Proof.
  rewrite (main_parsed sample_float "230" "5" "0.8" "50" [] 230 5 (8 / 10) 50)
    by reflexivity.
  now rewrite scenario_report.
Qed.

Lemma INR_50_neq_0 : INR 50 <> 0.
Proof.
  apply not_0_INR. discriminate.
Qed.

Lemma main_default_frequency_witness :
  main sample_float ["230"; "5"; "0.8"; ""] =
  asked 4 ++ report 230 5 (8 / 10) (INR 50).
Proof.
  exact (main_default_frequency sample_float "230" "5" "0.8" [] 230 5 (8 / 10)
           eq_refl eq_refl eq_refl).
Defined.

Lemma main_rejects_power_factor_witness :
  main sample_float ["230"; "5"; "1.5"; "50"] = asked 4 ++ [InvalidInput].
Proof.
  apply (main_rejects_power_factor sample_float "230" "5" "1.5" "50" []
           230 5 (15 / 10) 50); try reflexivity.
  right. lra.
Defined.

Lemma main_results_block_witness :
  exists last,
    main sample_float ["230"; "5"; "0.8"; "50"] =
    asked 4 ++
    [ResultsBlock (power_result (8 / 10) scenario_locals);
     if Rltb 0 (res_required_C (power_result (8 / 10) scenario_locals))
     then Suggestion (res_required_C (power_result (8 / 10) scenario_locals))
     else Optimal;
     ResultsEnd; last] /\
    (forall fig, last = ShowPlot fig ->
                 plot_waveforms 230 5 (8 / 10) 50 (INR 3) = Ok fig).
Proof.
  exact (main_results_block sample_float "230" "5" "0.8" "50" []
           230 5 (8 / 10) 50 _ eq_refl eq_refl eq_refl eq_refl
           scenario_returns).
Defined.

Lemma unity_run_shows_plot :
  In (ShowPlot (figure_of 230 5 1 50 (INR 3)))
     (main sample_float ["230"; "5"; "1"; "50"]).
Proof.
  rewrite unity_run. apply in_or_app. right. cbn [In]. tauto.
Qed.

Lemma main_plot_after_results_witness :
  In (ShowPlot (figure_of 230 5 1 50 (INR 3)))
     (main sample_float ["230"; "5"; "1"; "50"]) /\
  exists line_V line_I line_pf line_f rest V I pf f r,
    ["230"; "5"; "1"; "50"] = line_V :: line_I :: line_pf :: line_f :: rest /\
    sample_float line_V = Some V /\
    sample_float line_I = Some I /\
    sample_float line_pf = Some pf /\
    frequency_read sample_float line_f f /\
    calculate_power V I pf f = Ok r /\
    plot_waveforms V I pf f (INR 3) = Ok (figure_of 230 5 1 50 (INR 3)) /\
    main sample_float ["230"; "5"; "1"; "50"] =
    asked 4 ++
    [ResultsBlock r;
     if Rltb 0 (res_required_C r)
     then Suggestion (res_required_C r) else Optimal;
     ResultsEnd; ShowPlot (figure_of 230 5 1 50 (INR 3))].
Proof.
  split; [exact unity_run_shows_plot |].
  exact (main_plot_after_results sample_float _ _ unity_run_shows_plot).
Defined.


Lemma scenario_run_has_suggestion :
  In (Suggestion (res_required_C (power_result (8 / 10) scenario_locals)))
     (main sample_float ["230"; "5"; "0.8"; "50"]).
Proof.
  rewrite scenario_run. apply in_or_app. right. right. now left.
Qed.

Lemma main_suggestion_below_target_witness :
  In (Suggestion (res_required_C (power_result (8 / 10) scenario_locals)))
     (main sample_float ["230"; "5"; "0.8"; "50"]) /\
  0 < res_required_C (power_result (8 / 10) scenario_locals).
Proof.
  split; [exact scenario_run_has_suggestion |].
  exact (proj1 (main_suggestion_below_target sample_float _ _
                  scenario_run_has_suggestion)).
Defined.

(** ** Binary64: a power factor that is not a number *)

Section Binary64NaN.

Import Binary64.

Local Open Scope float_scope.

Variable rt : CRuntime.

(** [math_1] never raises on a NaN argument. *)
Lemma math_1_nan (f : float -> float) (can_overflow : bool) :
  math_1 f can_overflow nan = Ok (f nan).
Proof.
  unfold math_1.
  replace (PrimFloat.is_nan nan) with true by reflexivity.
  replace (PrimFloat.is_finite nan) with false by reflexivity.
  cbn [negb]. now rewrite !andb_false_r.
Qed.

(** The guard of line 7 does not stop a NaN power factor: both of its
    comparisons are false, no later step raises, the correction branch
    is skipped, and the call returns a record with [Q = 0], the NaN
    handed back as [pf] and the rounding of 0 as [required_C], for every
    voltage, current and frequency. *)
Theorem binary64_nan_power_factor (V_rms I_rms freq : float) :
  exists r,
    calculate_power (num := float_num rt) V_rms I_rms nan freq = Ok r /\
    res_Q r = 0 /\
    PrimFloat.is_nan (res_pf r) = true /\
    res_required_C r = double_round rt 2 0.
Proof.
  unfold calculate_power, calculate_power_locals.
  cbn [leb ltb lit_0 lit_1 lit_0_95 pow2 math_sqrt math_acos sub float_num].
  replace (PrimFloat.leb nan 0) with false by reflexivity.
  replace (PrimFloat.ltb 1 nan) with false by reflexivity.
  cbn [orb]. unfold float_pow2.
  replace (nan * nan) with nan by reflexivity.
  replace (PrimFloat.is_infinity nan) with false by reflexivity.
  cbn [andb bind].
  replace (1 - nan) with nan by reflexivity.
  rewrite !math_1_nan. cbn [bind].
  replace (PrimFloat.ltb nan 0.95) with false by reflexivity.
  cbn [andb bind]. eexists. split; [reflexivity |].
  unfold power_result.
  cbn [res_Q res_pf res_required_C loc_c_microfarad ltb lit_0 lit_1 round_nd
       float_num].
  replace (PrimFloat.ltb nan 1) with false by reflexivity.
  repeat split; reflexivity.
Qed.

End Binary64NaN.

(** ** Binary64: where a division by zero can come from *)

Section Binary64Division.

Import Binary64.

Local Open Scope float_scope.

Variable rt : CRuntime.

Lemma math_1_not_zero_division (f : float -> float) (x : float) :
  math_1 f false x <> Raise ZeroDivisionError.
Proof.
  destruct (math_1_cases f x) as [-> | ->]; discriminate.
Qed.

(** On floats, with any C library, [calculate_power] raises
    [ZeroDivisionError] only on line 23: the guard was passed, the
    correction branch was entered on the computed [pf < 0.95] and
    [P > 0], [V_rms ** 2] was computed, and the computed divisor
    [2 * pi * freq * V_rms ** 2] compared equal to zero. *)
Theorem binary64_zero_division_inv (V_rms I_rms pf freq : float) :
  calculate_power (num := float_num rt) V_rms I_rms pf freq =
  Raise ZeroDivisionError ->
  PrimFloat.leb pf 0 || PrimFloat.ltb 1 pf = false /\
  PrimFloat.ltb pf 0.95 = true /\
  PrimFloat.ltb 0 (V_rms * I_rms * pf) = true /\
  exists V_sq,
    float_pow2 V_rms = Ok V_sq /\
    PrimFloat.eqb (2 * 3.141592653589793 * freq * V_sq) 0 = true.
Proof.
  unfold calculate_power, calculate_power_locals.
  cbn [leb ltb lit_0 lit_1 lit_2 lit_0_95 lit_1e6 math_pi pow2 math_sqrt
       math_acos math_tan math_degrees truediv sub mul float_num].
  destruct (PrimFloat.leb pf 0 || PrimFloat.ltb 1 pf); [discriminate |].
  destruct (float_pow2 pf) as [pf_sq | e] eqn:Hsq.
  2:{ unfold float_pow2 in Hsq.
      destruct (PrimFloat.is_infinity (pf * pf) && PrimFloat.is_finite pf);
        [injection Hsq as <- | discriminate Hsq]. cbn [bind]. discriminate. }
  cbn [bind].
  destruct (math_1_cases PrimFloat.sqrt (1 - pf_sq)) as [-> | ->];
    [discriminate |]. cbn [bind].
  destruct (math_1_cases (c_acos rt) pf) as [-> | ->];
    [discriminate |]. cbn [bind].
  destruct (PrimFloat.ltb pf 0.95); [| discriminate].
  destruct (PrimFloat.ltb 0 (V_rms * I_rms * pf)); [| discriminate].
  cbn [andb].
  destruct (math_1_cases (c_acos rt) 0.95) as [-> | ->];
    [discriminate |]. cbn [bind].
  destruct (math_1_cases (c_tan rt) (c_acos rt pf)) as [-> | ->];
    [discriminate |]. cbn [bind].
  destruct (math_1_cases (c_tan rt) (c_acos rt 0.95)) as [-> | ->];
    [discriminate |]. cbn [bind].
  destruct (float_pow2 V_rms) as [V_sq | e] eqn:HV.
  2:{ unfold float_pow2 in HV.
      destruct (PrimFloat.is_infinity (V_rms * V_rms)
                && PrimFloat.is_finite V_rms);
        [injection HV as <- | discriminate HV]. cbn [bind]. discriminate. }
  cbn [bind]. unfold float_truediv.
  destruct (PrimFloat.eqb (2 * 3.141592653589793 * freq * V_sq) 0) eqn:Hz;
    [| discriminate].
  intros _. repeat split. now exists V_sq.
Qed.

End Binary64Division.

Lemma binary64_zero_division_inv_witness :
  PrimFloat.leb 0.8 0 || PrimFloat.ltb 1 0.8 = false /\
  PrimFloat.ltb 0.8 0.95 = true /\
  PrimFloat.ltb 0 (230 * 5 * 0.8) = true /\
  exists V_sq,
    Binary64.float_pow2 230 = Ok V_sq /\
    PrimFloat.eqb (2 * 3.141592653589793 * 0 * V_sq) 0 = true.
Proof.
  apply (binary64_zero_division_inv Binary64.constant_runtime
           230%float 5%float 0.8%float 0%float).
  vm_compute. reflexivity.
Defined.
